(** * Vessel emissions before and after Just-In-Time arrival

    A shallow embedding of the three batch jobs of the repository
    (anc_before_jit.py, anc_after_jit.py, anc_savings_after_jit.py) and
    the properties their specification states about them.

    Numbers: the columns are binary64 floats in the source; here they are
    exact rationals ([Q], compared with [==]), which is the reading the
    specification takes when it sets overflow aside.  A missing cell
    (pandas NaN / NaT) is [None].  Tables are lists of records, one
    record type per stage of a pipeline, a later stage wrapping the row
    of the stage before it together with the columns it adds. *)

From Stdlib Require Import QArith Qminmax ZArith String Lia Lqa OrderedTypeEx.
From stdpp Require Import gmap strings list sorting.

Set Default Proof Using "Type*".
Set Warnings "-clear-no-such-hyp".

Open Scope Q_scope.

(** ** Exceptions of the Python runtime that the jobs can meet *)

Inductive exn :=
  | TypeError
  | OverflowError
  | ValueError (msg : string)
  | NameError (name : string).

(** ** The dataframe operations the jobs rely on *)

Module Pandas.

(** [Series.fillna(v)]: a missing cell becomes [v]. *)
Definition fillna (v : Q) (c : option Q) : Q :=
  match c with
  | Some x => x
  | None => v
  end.

Definition Qlt_bool (x y : Q) : bool := negb (Qle_bool y x).

(** [Series.clip(upper=u)], also the masked assignment
    [df.loc[col > u, col] = u]. *)
Definition clip_upper (u x : Q) : Q := if Qlt_bool u x then u else x.

(** [Series.sum()]. *)
Definition sum (l : list Q) : Q := foldr Qplus 0 l.

(** Orders used by [sort_values]: strings by code point, a missing key
    after every present one ([na_position='last']). *)
Definition string_le (s t : string) : Prop := String.leb s t = true.

Definition key_leb (a b : option string) : bool :=
  match a, b with
  | Some s, Some t => String.leb s t
  | _, None => true
  | None, Some _ => false
  end.

Definition key_le (a b : option string) : Prop := key_leb a b = true.

#[global] Instance string_le_dec : RelDecision string_le.
Proof. intros s t. unfold string_le. apply _. Defined.

#[global] Instance key_le_dec : RelDecision key_le.
Proof. intros s t. unfold key_le. apply _. Defined.

(** [df.sort_values(col)]: the rows ordered by a key column.  Rows with
    equal keys keep no promised order in pandas' default sort; nothing
    below depends on it. *)
Definition by_key {A K : Type} (le : relation K) (key : A -> K)
  : relation A := fun a b => le (key a) (key b).

#[global] Instance by_key_dec {A K : Type} (le : relation K)
  `{!RelDecision le} (key : A -> K) : RelDecision (by_key le key).
Proof. intros a b. unfold by_key. apply _. Defined.

Definition sort_values {A K : Type} (le : relation K) `{!RelDecision le}
    (key : A -> K) (rows : list A) : list A :=
  merge_sort (by_key le key) rows.

(** [df.sort_values([col1, col2])]: on several columns pandas sorts
    with a stable lexsort, so rows with equal keys keep the order they
    had in the frame.  Going through the frame from its end, each row
    is put in front of the first row that is not before it. *)
Fixpoint insert_row {A : Type} (R : relation A) `{!RelDecision R}
    (x : A) (sorted : list A) : list A :=
  match sorted with
  | [] => [x]
  | y :: rest =>
      if decide (R x y) then x :: y :: rest
      else y :: insert_row R x rest
  end.

Definition lexsort {A K : Type} (le : relation K) `{!RelDecision le}
    (key : A -> K) (rows : list A) : list A :=
  foldr (insert_row (by_key le key)) [] rows.

Section Tables.
Context {K : Type} `{EqDecision K}.

(** [Series.unique()]: the distinct values in order of first
    appearance, found by one pass that remembers what it has seen. *)
Fixpoint unique_from (seen l : list K) : list K :=
  match l with
  | [] => []
  | x :: rest =>
      if decide (x ∈ seen) then unique_from seen rest
      else x :: unique_from (x :: seen) rest
  end.

Definition unique (l : list K) : list K := unique_from [] l.

(** [pd.merge(left, right, on=key, how='left')]: every left row, in
    order, once per right row with an equal key, or once with the
    right side missing.  Missing keys are equal to each other, as in
    pandas. *)
Definition merge_left {L R : Type} (kl : L -> K) (kr : R -> K)
    (left : list L) (right : list R) : list (L * option R) :=
  left ≫= (fun l =>
    match filter (fun r => kr r = kl l) right with
    | [] => [(l, None)]
    | ms => (fun r => (l, Some r)) <$> ms
    end).

(** [pd.merge(..., how='outer')]: the left join followed by the right
    rows whose key no left row has, the whole ordered by key. *)
Definition merge_outer {L R : Type} (le : relation K) `{!RelDecision le}
    (kl : L -> K) (kr : R -> K)
    (left : list L) (right : list R) : list (K * option L * option R) :=
  sort_values le (fun row => row.1.1)
    (((fun p => (kl p.1, Some p.1, p.2)) <$> merge_left kl kr left right)
     ++ ((fun r => (kr r, None, Some r))
           <$> filter (fun r => kr r ∉ (kl <$> left)) right)).
End Tables.

(** [df.groupby(key)[col].sum()]: one entry per distinct present key, in
    key order ([sort=True]); rows whose key is missing are dropped
    ([dropna=True]). *)
Definition groupby_sum {R : Type} (key : R -> option string) (val : R -> Q)
    (rows : list R) : list (string * Q) :=
  (fun k => (k, sum (val <$> filter (fun r => key r = Some k) rows)))
    <$> merge_sort string_le (unique (omap key rows)).

(** *** [pd.cut]

    Bin edges may be infinite.  With the defaults the jobs use
    ([right=True], [include_lowest=False]) pandas locates a value with
    [bins.searchsorted(x, side='left')], which for increasing edges is
    the number of edges strictly below the value, masks the positions
    [0] and [len(bins)] as missing, and takes the label at the position
    minus one. *)

Inductive edge := NegInf | Fin (q : Q) | PosInf.

Definition edge_below (e : edge) (x : Q) : bool :=
  match e with
  | NegInf => true
  | Fin q => Qlt_bool q x
  | PosInf => false
  end.

Fixpoint searchsorted_left (bins : list edge) (x : Q) : nat :=
  match bins with
  | [] => O
  | e :: rest => if edge_below e x then S (searchsorted_left rest x) else O
  end.

Definition cut (bins : list edge) (labels : list string) (x : Q)
  : option string :=
  let ids := searchsorted_left bins x in
  if (ids =? 0)%nat || (ids =? length bins)%nat then None
  else labels !! (ids - 1)%nat.

(** A missing value stays missing. *)
Definition cut_cell (bins : list edge) (labels : list string)
    (c : option Q) : option string :=
  c ≫= cut bins labels.

End Pandas.

(** ** Job B: emissions after JIT (anc_after_jit.py) *)

Module AncAfterJit.
Import Pandas.

(** A cell of the [timestamp] column: text as [read_csv] loads it, an
    instant in nanoseconds once [to_datetime] has parsed it, or missing
    (NaN before the conversion, NaT after it). *)
Inductive timestamp_cell :=
  | Datetime (ns : Z)
  | NaT
  | Text (raw : string).

#[global] Instance timestamp_cell_eq_dec : EqDecision timestamp_cell.
Proof. solve_decision. Defined.

(** One AIS observation, with the columns of [ais_dataset.csv]. *)
Record activity := {
  imo : option string;
  timestamp : timestamp_cell;
  fuel_category : option string;
  ael : option Q;
  abl : option Q }.

(** The frame [calculate_duration] receives: it asks whether there is a
    [timestamp] column at all. *)
Record frame := {
  has_timestamp : bool;
  records : list activity }.

Record timed := {
  obs :> activity;
  activity_duration_hours : Q }.

Record factor := {
  factor_fuel_category : option string;
  sfc : option Q }.

Record merged := {
  act :> timed;
  sfc_ae : option Q;
  sfc_ab : option Q }.

Record emission := {
  src :> merged;
  aux_emissions_after_jit : Q;
  boiler_emissions_after_jit : Q;
  jit_activity_duration_hours : Q;
  total_emissions_grams_after_jit : Q;
  total_emissions_tonnes_after_jit : Q }.

Record vessel_total := {
  vessel : option string;
  anc_after_jit : Q;
  emission_range : option string }.

(** *** calculate_duration *)

(** [sort_values(['imo', 'timestamp'])]: by vessel, then by time, a
    missing value last in either column. *)
Definition timestamp_leb (a b : timestamp_cell) : bool :=
  match a, b with
  | Datetime x, Datetime y => (x <=? y)%Z
  | Text s, Text t => String.leb s t
  | Datetime _, Text _ => true
  | Text _, Datetime _ => false
  | _, NaT => true
  | NaT, _ => false
  end.

Definition imo_timestamp_le (a b : option string * timestamp_cell) : Prop :=
  (if decide (a.1 = b.1) then timestamp_leb a.2 b.2 else key_leb a.1 b.1)
  = true.

#[global] Instance imo_timestamp_le_dec : RelDecision imo_timestamp_le.
Proof. intros a b. unfold imo_timestamp_le. apply _. Defined.

(** pandas keeps an instant, and a difference of instants, as a signed
    64-bit count of nanoseconds; the least such number stands for NaT. *)
Definition int64_min : Z := -9223372036854775808.
Definition int64_max : Z := 9223372036854775807.

Definition fits_int64 (z : Z) : bool :=
  (int64_min <=? z)%Z && (z <=? int64_max)%Z.

(** [groupby('imo')['timestamp'].diff()]: each row minus the row before
    it among those of the same vessel, in frame order; missing for the
    first row of a vessel, for a row without vessel, and when either
    instant is missing.  [seen] holds the rows already passed, the
    latest first.  The differences are computed here as integers; the
    subtraction of the two columns is overflow-checked in pandas, which
    [calculate_duration_try] accounts for with [overflows]. *)
Definition same_vessel (k : option string) (r : activity) : bool :=
  match k with
  | Some _ => bool_decide (imo r = k)
  | None => false
  end.

(** The difference of two instants as an integer; whether it fits 64
    bits is what [overflows] below tests. *)
Definition timedelta (cur : timestamp_cell) (prev : option activity)
  : option Z :=
  match cur, timestamp <$> prev with
  | Datetime a, Some (Datetime b) => Some (a - b)%Z
  | _, _ => None
  end.

Fixpoint groupby_diff (seen df : list activity)
  : list (activity * option Z) :=
  match df with
  | [] => []
  | r :: rest =>
      (r, timedelta (timestamp r) (List.find (same_vessel (imo r)) seen))
        :: groupby_diff (r :: seen) rest
  end.

(** A difference that does not fit 64 bits: instants of one vessel more
    than 2^63 - 1 ns (some 292 years) apart.  The subtraction then
    raises [OverflowError]. *)
Definition overflows (d : option Z) : bool :=
  match d with
  | Some z => negb (fits_int64 z)
  | None => false
  end.

(** [.dt.total_seconds() / 3600] of a difference in nanoseconds. *)
Definition hours (ns : Z) : Q := inject_Z ns / 1000000000 / 3600.

Definition datetimelike (c : timestamp_cell) : bool :=
  match c with
  | Text _ => false
  | _ => true
  end.

Definition set_duration (d : Q) (r : activity) : timed :=
  {| obs := r; activity_duration_hours := d |}.

Definition cap_24 (r : timed) : timed :=
  {| obs := obs r;
     activity_duration_hours := clip_upper 24 (activity_duration_hours r) |}.

(** [df.sort_values(['imo', 'timestamp'])]. *)
Definition sorted_records (fr : frame) : list activity :=
  lexsort imo_timestamp_le (fun r => (imo r, timestamp r)) (records fr).

(** The body of the [try]: what it returns, or the exception it raises
    together with the frame the local [df] is bound to at that point,
    which is the sorted one.  Instants subtract, with [OverflowError]
    when a difference of the column does not fit 64 bits; on a column
    that still holds text the difference raises [TypeError] (and the
    [.dt] accessor would). *)
Inductive attempt :=
  | Returned (df : list timed)
  | Raised (e : exn) (df : list activity).

Definition calculate_duration_try (fr : frame) : attempt :=
  if has_timestamp fr then
    let df := sorted_records fr in
    if forallb datetimelike (timestamp <$> df) then
      let diffs := groupby_diff [] df in
      if existsb overflows (diffs.*2) then Raised OverflowError df
      else
        let df := (fun p => set_duration (fillna 1 (hours <$> p.2)) p.1)
                    <$> diffs in
        Returned (cap_24 <$> df)
    else Raised TypeError df
  else
    Returned (cap_24 <$> (set_duration 1 <$> records fr)).

(** The [except Exception] handler: every row gets one hour. *)
Definition calculate_duration (fr : frame) : list timed :=
  match calculate_duration_try fr with
  | Returned df => df
  | Raised _ df => set_duration 1 <$> df
  end.

(** *** preprocess_data *)

Section Preprocess.
(** The parser behind [pd.to_datetime]: the instant a text denotes, in
    nanoseconds since 1970, or [None] when the text is not a date.
    [errors='coerce'] turns such a text into NaT, and with it a date
    outside the range of a 64-bit instant (before 1677-09-21 or after
    2262-04-11). *)
Variable parse_datetime : string -> option Z.

Definition in_bounds (ns : Z) : bool :=
  (int64_min <? ns)%Z && (ns <=? int64_max)%Z.

Definition to_datetime (c : timestamp_cell) : timestamp_cell :=
  match c with
  | Text s =>
      match parse_datetime s with
      | Some ns => if in_bounds ns then Datetime ns else NaT
      | None => NaT
      end
  | c => c
  end.

(** The frame [preprocess_data] hands to [calculate_duration]:
    timestamps converted, missing loads filled. *)
Definition prepared (ais_data : list activity) : frame :=
  let df := (fun r => {| imo := imo r;
                         timestamp := to_datetime (timestamp r);
                         fuel_category := fuel_category r;
                         ael := ael r; abl := abl r |}) <$> ais_data in
  let df := (fun r => {| imo := imo r;
                         timestamp := timestamp r;
                         fuel_category := fuel_category r;
                         ael := Some (fillna 0 (ael r));
                         abl := Some (fillna 0 (abl r)) |}) <$> df in
  {| has_timestamp := true; records := df |}.

(** The table has the columns of [ais_dataset.csv], so [df.get('ael',
    ...)] and [df.get('abl', ...)] find theirs and [fillna(0)] fills
    their missing cells. *)
Definition preprocess_data (ais_data : list activity)
  : list timed * list (option string) :=
  let df := (fun r => {| imo := imo r;
                         timestamp := to_datetime (timestamp r);
                         fuel_category := fuel_category r;
                         ael := ael r; abl := abl r |}) <$> ais_data in
  let all_imos := unique (imo <$> df) in
  (calculate_duration (prepared ais_data), all_imos).
End Preprocess.

(** *** merge_emission_factors *)

Definition merge_emission_factors (ais_data : list timed)
    (aux_engine_factors boiler_engine_factors : list factor) : list merged :=
  let merged1 :=
    merge_left (fun r : timed => fuel_category r) factor_fuel_category
      ais_data aux_engine_factors in
  let merged2 :=
    merge_left (fun p : timed * option factor => fuel_category p.1)
      factor_fuel_category merged1 boiler_engine_factors in
  (fun p : timed * option factor * option factor =>
     {| act := p.1.1;
        sfc_ae := Some (fillna 0 (p.1.2 ≫= sfc));
        sfc_ab := Some (fillna 0 (p.2 ≫= sfc)) |}) <$> merged2.

(** *** calculate_emissions_after_jit *)

Definition emissions_of (load factor : option Q) (duration : Q) : Q :=
  match load, factor with
  | Some l, Some f => l * duration * f * 0.867 * 3.667
  | _, _ => 0
  end.

Definition emission_of (r : merged) : emission :=
  let jit := clip_upper 3 (activity_duration_hours r) in
  let aux := emissions_of (ael r) (sfc_ae r) jit in
  let boiler := emissions_of (abl r) (sfc_ab r) jit in
  let grams := aux + boiler in
  {| src := r;
     aux_emissions_after_jit := aux;
     boiler_emissions_after_jit := boiler;
     jit_activity_duration_hours := jit;
     total_emissions_grams_after_jit := grams;
     total_emissions_tonnes_after_jit := grams / 1000000 |}.

Definition calculate_emissions_after_jit (data : list merged)
  : list emission := emission_of <$> data.

(** *** aggregate_and_analyze_emissions *)

Definition emission_bins : list edge :=
  [Fin 0; Fin 0.001; Fin 1; Fin 10; Fin 50; Fin 100; PosInf].

Definition emission_labels : list string :=
  ["Zero"; "0-1"; "1-10"; "10-50"; "50-100"; "100+"]%string.

Definition aggregate_and_analyze_emissions (data : list emission)
    (all_imos : list (option string)) : list vessel_total :=
  let emissions_by_imo :=
    groupby_sum (fun r : emission => imo r)
      total_emissions_tonnes_after_jit data in
  let final_emissions :=
    (fun p : option string * option (string * Q) =>
       (p.1, fillna 0 (snd <$> p.2)))
      <$> merge_left (fun k : option string => k)
            (fun g : string * Q => Some g.1) all_imos emissions_by_imo in
  let final_emissions := sort_values key_le fst final_emissions in
  (fun p : option string * Q =>
     {| vessel := p.1;
        anc_after_jit := p.2;
        emission_range := cut emission_bins emission_labels p.2 |})
    <$> final_emissions.

(** *** main *)

(** The table [main] hands to the aggregation. *)
Definition emissions_data (parse_datetime : string -> option Z)
    (ais_data : list activity)
    (aux_engine_factors boiler_engine_factors : list factor)
  : list emission :=
  calculate_emissions_after_jit
    (merge_emission_factors (preprocess_data parse_datetime ais_data).1
       aux_engine_factors boiler_engine_factors).

Definition main (parse_datetime : string -> option Z)
    (ais_data : list activity)
    (aux_engine_factors boiler_engine_factors : list factor)
  : list vessel_total :=
  let '(processed_data, all_imos) :=
    preprocess_data parse_datetime ais_data in
  let merged_data :=
    merge_emission_factors processed_data
      aux_engine_factors boiler_engine_factors in
  let emissions_data := calculate_emissions_after_jit merged_data in
  aggregate_and_analyze_emissions emissions_data all_imos.

End AncAfterJit.

(** ** Job A: the before-JIT report (anc_before_jit.py) *)

Module AncBeforeJit.
Import Pandas.

(** A row of [anc_before_jit.csv]; [read_csv] infers an integer column
    for the IMO numbers. *)
Record vessel_emission := {
  imo : Z;
  anc_before_jit : option Q }.

Record analysed := {
  row :> vessel_emission;
  emission_range : option string }.

Definition emission_bins : list edge :=
  [Fin 0; Fin 0.001; Fin 1; Fin 10; Fin 50; Fin 100; PosInf].

Definition emission_labels : list string :=
  ["Zero"; "0-1"; "1-10"; "10-50"; "50-100"; "100+"]%string.

(** The table [load_and_analyze_data] returns (and writes, ordered by
    emissions, to emissions_detailed_analysis.csv). *)
Definition load_and_analyze_data (emissions_df : list vessel_emission)
  : list analysed :=
  let emissions_df := sort_values Z.le imo emissions_df in
  (fun r =>
     {| row := r;
        emission_range :=
          cut_cell emission_bins emission_labels (anc_before_jit r) |})
    <$> emissions_df.

End AncBeforeJit.

(** ** Job C: savings (anc_savings_after_jit.py) *)

Module AncSavings.
Import Pandas.

(** A row of one of the two input tables: the vessel, as text after
    [astype(str)], and its value column ([anc_before_jit] in the one,
    [anc_after_jit] in the other). *)
Record aggregate := {
  imo : string;
  value : option Q }.

Record saving := {
  vessel : string;
  anc_before_jit : Q;
  anc_after_jit : Q;
  anc_savings_after_jit : Q;
  savings_range : option string }.

Definition savings_bins : list edge :=
  [NegInf; Fin (-0.001); Fin 0.001; Fin 1; Fin 10; Fin 50; Fin 100; PosInf].

Definition savings_labels : list string :=
  ["Negative"; "Zero"; "0-1"; "1-10"; "10-50"; "50-100"; "100+"]%string.

(** From the merge to the returned table. *)
Definition savings_table (before_jit after_jit : list aggregate)
  : list saving :=
  let merged := merge_outer string_le imo imo before_jit after_jit in
  let merged :=
    (fun p : string * option aggregate * option aggregate =>
       (p.1.1, fillna 0 (p.1.2 ≫= value), fillna 0 (p.2 ≫= value)))
      <$> merged in
  let merged :=
    (fun p : string * Q * Q => (p, p.1.2 - p.2)) <$> merged in
  let merged :=
    sort_values string_le (fun p : string * Q * Q * Q => p.1.1.1) merged in
  (fun p : string * Q * Q * Q =>
     {| vessel := p.1.1.1;
        anc_before_jit := p.1.1.2;
        anc_after_jit := p.1.2;
        anc_savings_after_jit := p.2;
        savings_range := cut savings_bins savings_labels p.2 |})
    <$> merged.

(** [safe_read_csv] yields [None] when a file cannot be read; the job
    then raises [ValueError], and its handler re-raises after
    printing. *)
Definition calculate_emission_savings
    (before_jit after_jit : option (list aggregate)) : exn + list saving :=
  match before_jit, after_jit with
  | Some b, Some a => inr (savings_table b a)
  | _, _ => inl (ValueError "Failed to load one or both CSV files")
  end.

End AncSavings.

(** ** The scripts' top level *)

Module Script.

(** What a global name can be bound to, as far as the top level of the
    three files goes. *)
Inductive pyobj :=
  | PyNone
  | PyStr (s : string)
  | PyModule (name : string)
  | PyFunction (name : string)
  | PyBuiltin (name : string)
  | PyValue.

#[global] Instance pyobj_eq_dec : EqDecision pyobj.
Proof. solve_decision. Defined.

(** The names of the [builtins] module (CPython 3.12, with the names
    [site] adds). *)
Definition builtin_names : list string :=
  ["ArithmeticError"; "AssertionError"; "AttributeError"; "BaseException";
   "BaseExceptionGroup"; "BlockingIOError"; "BrokenPipeError"; "BufferError";
   "BytesWarning"; "ChildProcessError"; "ConnectionAbortedError";
   "ConnectionError"; "ConnectionRefusedError"; "ConnectionResetError";
   "DeprecationWarning"; "EOFError"; "Ellipsis"; "EncodingWarning";
   "EnvironmentError"; "Exception"; "ExceptionGroup"; "False";
   "FileExistsError"; "FileNotFoundError"; "FloatingPointError";
   "FutureWarning"; "GeneratorExit"; "IOError"; "ImportError";
   "ImportWarning"; "IndentationError"; "IndexError"; "InterruptedError";
   "IsADirectoryError"; "KeyError"; "KeyboardInterrupt"; "LookupError";
   "MemoryError"; "ModuleNotFoundError"; "NameError"; "None";
   "NotADirectoryError"; "NotImplemented"; "NotImplementedError"; "OSError";
   "OverflowError"; "PendingDeprecationWarning"; "PermissionError";
   "ProcessLookupError"; "RecursionError"; "ReferenceError";
   "ResourceWarning"; "RuntimeError"; "RuntimeWarning";
   "StopAsyncIteration"; "StopIteration"; "SyntaxError"; "SyntaxWarning";
   "SystemError"; "SystemExit"; "TabError"; "TimeoutError"; "True";
   "TypeError"; "UnboundLocalError"; "UnicodeDecodeError";
   "UnicodeEncodeError"; "UnicodeError"; "UnicodeTranslateError";
   "UnicodeWarning"; "UserWarning"; "ValueError"; "Warning";
   "ZeroDivisionError"; "__build_class__"; "__debug__"; "__doc__";
   "__import__"; "__loader__"; "__name__"; "__package__"; "__spec__";
   "abs"; "aiter"; "all"; "anext"; "any"; "ascii"; "bin"; "bool";
   "breakpoint"; "bytearray"; "bytes"; "callable"; "chr"; "classmethod";
   "compile"; "complex"; "copyright"; "credits"; "delattr"; "dict"; "dir";
   "divmod"; "enumerate"; "eval"; "exec"; "exit"; "filter"; "float";
   "format"; "frozenset"; "getattr"; "globals"; "hasattr"; "hash"; "help";
   "hex"; "id"; "input"; "int"; "isinstance"; "issubclass"; "iter"; "len";
   "license"; "list"; "locals"; "map"; "max"; "memoryview"; "min"; "next";
   "object"; "oct"; "open"; "ord"; "pow"; "print"; "property"; "quit";
   "range"; "repr"; "reversed"; "round"; "set"; "setattr"; "slice";
   "sorted"; "staticmethod"; "str"; "sum"; "super"; "tuple"; "type";
   "vars"; "zip"]%string.

(** Loading a global name: the module's namespace, then the builtins,
    then [NameError]. *)
Definition load_name (g : gmap string pyobj) (x : string) : exn + pyobj :=
  match g !! x with
  | Some v => inr v
  | None =>
      if decide (x ∈ builtin_names) then inr (PyBuiltin x)
      else inl (NameError x)
  end.

Definition import_as (module alias : string) (g : gmap string pyobj)
  : gmap string pyobj := <[alias := PyModule module]> g.

Definition def (f : string) (g : gmap string pyobj) : gmap string pyobj :=
  <[f := PyFunction f]> g.

(** What running a file's top level leaves behind: the exception that
    ended it, if any, the functions it called, in order, and the
    namespace. *)
Record run := {
  raised : option exn;
  calls : list string;
  globals : gmap string pyobj }.

(** The guard [if <guard> == "__main__": <target> = <entry>()], the
    call taken to return. *)
Definition guarded_entry (guard entry target : string)
    (g : gmap string pyobj) : run :=
  match load_name g guard with
  | inl e => {| raised := Some e; calls := []; globals := g |}
  | inr v =>
      if decide (v = PyStr "__main__") then
        {| raised := None; calls := [entry];
           globals := <[target := PyValue]> g |}
      else {| raised := None; calls := []; globals := g |}
  end.

Definition anc_after_jit_py (g : gmap string pyobj) : run :=
  let g := import_as "pandas" "pd" g in
  let g := import_as "numpy" "np" g in
  let g := def "load_data" g in
  let g := def "calculate_duration" g in
  let g := def "preprocess_data" g in
  let g := def "merge_emission_factors" g in
  let g := def "calculate_emissions_after_jit" g in
  let g := def "aggregate_and_analyze_emissions" g in
  let g := def "main" g in
  guarded_entry "name" "main" "result" g.

Definition anc_before_jit_py (g : gmap string pyobj) : run :=
  let g := import_as "pandas" "pd" g in
  let g := import_as "numpy" "np" g in
  let g := def "load_and_analyze_data" g in
  let g := def "display_specific_imo_range" g in
  guarded_entry "name" "load_and_analyze_data" "emissions_data" g.

Definition anc_savings_after_jit_py (g : gmap string pyobj) : run :=
  let g := import_as "pandas" "pd" g in
  let g := import_as "numpy" "np" g in
  let g := def "safe_read_csv" g in
  let g := def "calculate_emission_savings" g in
  guarded_entry "__name__" "calculate_emission_savings" "savings_result" g.

(** The namespace of the [__main__] module when the interpreter starts
    to run a file as a script. *)
Definition script_globals (file : string) : gmap string pyobj :=
  <["__name__" := PyStr "__main__"]>
  (<["__doc__" := PyNone]>
  (<["__package__" := PyNone]>
  (<["__loader__" := PyValue]>
  (<["__spec__" := PyNone]>
  (<["__annotations__" := PyValue]>
  (<["__builtins__" := PyModule "builtins"]>
  (<["__file__" := PyStr file]>
  (<["__cached__" := PyNone]> ∅)))))))).

End Script.
(** ** Sample tables

    Small inputs on which the statements below are exercised. *)

Module Samples.

Definition parse_sample (s : string) : option Z :=
  if decide (s = "2024-01-01 00:00:00"%string) then Some 0%Z
  else if decide (s = "2024-01-01 05:00:00"%string) then Some 18000000000000%Z
  else None.

(** Two observations of one vessel five hours apart, given latest
    first, and one of a second vessel whose timestamp is not a date and
    whose fuel has no emission factor. *)
Definition ais_sample : list AncAfterJit.activity :=
  [ {| AncAfterJit.imo := Some "IMO1"%string;
       AncAfterJit.timestamp := AncAfterJit.Text "2024-01-01 05:00:00";
       AncAfterJit.fuel_category := Some "A"%string;
       AncAfterJit.ael := Some 10;
       AncAfterJit.abl := None |};
    {| AncAfterJit.imo := Some "IMO1"%string;
       AncAfterJit.timestamp := AncAfterJit.Text "2024-01-01 00:00:00";
       AncAfterJit.fuel_category := Some "A"%string;
       AncAfterJit.ael := Some 10;
       AncAfterJit.abl := Some 1 |};
    {| AncAfterJit.imo := Some "IMO2"%string;
       AncAfterJit.timestamp := AncAfterJit.Text "yesterday";
       AncAfterJit.fuel_category := Some "B"%string;
       AncAfterJit.ael := Some 4;
       AncAfterJit.abl := Some 2 |} ].

Definition aux_sample : list AncAfterJit.factor :=
  [ {| AncAfterJit.factor_fuel_category := Some "A"%string;
       AncAfterJit.sfc := Some 2 |} ].

Definition boiler_sample : list AncAfterJit.factor :=
  [ {| AncAfterJit.factor_fuel_category := Some "A"%string;
       AncAfterJit.sfc := Some 3 |} ].

(** The frame [preprocess_data] builds from the sample: instants
    parsed, missing loads filled. *)
Definition parsed_frame : AncAfterJit.frame :=
  {| AncAfterJit.has_timestamp := true;
     AncAfterJit.records :=
       [ {| AncAfterJit.imo := Some "IMO1"%string;
            AncAfterJit.timestamp := AncAfterJit.Datetime 18000000000000;
            AncAfterJit.fuel_category := Some "A"%string;
            AncAfterJit.ael := Some 10;
            AncAfterJit.abl := Some 0 |};
         {| AncAfterJit.imo := Some "IMO1"%string;
            AncAfterJit.timestamp := AncAfterJit.Datetime 0;
            AncAfterJit.fuel_category := Some "A"%string;
            AncAfterJit.ael := Some 10;
            AncAfterJit.abl := Some 1 |};
         {| AncAfterJit.imo := Some "IMO2"%string;
            AncAfterJit.timestamp := AncAfterJit.NaT;
            AncAfterJit.fuel_category := Some "B"%string;
            AncAfterJit.ael := Some 4;
            AncAfterJit.abl := Some 2 |} ] |}.

(** A frame whose [timestamp] column was never converted. *)
Definition text_frame : AncAfterJit.frame :=
  {| AncAfterJit.has_timestamp := true;
     AncAfterJit.records := ais_sample |}.

(** The same rows without a [timestamp] column (the cells are then
    never read). *)
Definition bare_frame : AncAfterJit.frame :=
  {| AncAfterJit.has_timestamp := false;
     AncAfterJit.records := ais_sample |}.

(** The vessel of the specification's worked example. *)
Definition imo1_row : AncAfterJit.merged :=
  {| AncAfterJit.act :=
       {| AncAfterJit.obs :=
            {| AncAfterJit.imo := Some "IMO1"%string;
               AncAfterJit.timestamp := AncAfterJit.Datetime 18000000000000;
               AncAfterJit.fuel_category := Some "A"%string;
               AncAfterJit.ael := Some 10;
               AncAfterJit.abl := Some 0 |};
          AncAfterJit.activity_duration_hours := 5 |};
     AncAfterJit.sfc_ae := Some 2;
     AncAfterJit.sfc_ab := Some 0 |}.

(** Before- and after-JIT aggregates: vessel [A] in both, with more
    after than before; [B] only before; [C] only after. *)
Definition before_sample : list AncSavings.aggregate :=
  [ {| AncSavings.imo := "B"%string; AncSavings.value := Some 5 |};
    {| AncSavings.imo := "A"%string; AncSavings.value := Some 1 |} ].

Definition after_sample : list AncSavings.aggregate :=
  [ {| AncSavings.imo := "C"%string; AncSavings.value := Some 2 |};
    {| AncSavings.imo := "A"%string; AncSavings.value := Some 1.0005 |} ].

(** A before table that lists a vessel twice. *)
Definition repeated_before_sample : list AncSavings.aggregate :=
  [ {| AncSavings.imo := "A"%string; AncSavings.value := Some 1 |};
    {| AncSavings.imo := "A"%string; AncSavings.value := Some 2 |} ].

Definition before_report_sample : list AncBeforeJit.vessel_emission :=
  [ {| AncBeforeJit.imo := 9000002; AncBeforeJit.anc_before_jit := Some 12.5 |};
    {| AncBeforeJit.imo := 9000001; AncBeforeJit.anc_before_jit := Some 0 |} ].

(** A before table with a negative value, the file [imo,anc_before_jit]
    / [4,-1]. *)
Definition negative_before_sample : list AncBeforeJit.vessel_emission :=
  [ {| AncBeforeJit.imo := 4; AncBeforeJit.anc_before_jit := Some (-1) |} ].

(** Two dates 500 years apart, in nanoseconds since 1970: both are
    valid instants, their difference is not a valid difference. *)
Definition parse_calendar (s : string) : option Z :=
  if decide (s = "1700-01-01 00:00:00"%string)
  then Some (-8520336000000000000)%Z
  else if decide (s = "2200-01-01 00:00:00"%string)
  then Some 7258118400000000000%Z
  else None.

(** An AIS table with a vessel seen on both dates, and a second vessel
    seen once. *)
Definition far_apart_sample : list AncAfterJit.activity :=
  [ {| AncAfterJit.imo := Some "IMO1"%string;
       AncAfterJit.timestamp := AncAfterJit.Text "2200-01-01 00:00:00";
       AncAfterJit.fuel_category := Some "A"%string;
       AncAfterJit.ael := Some 10;
       AncAfterJit.abl := Some 1 |};
    {| AncAfterJit.imo := Some "IMO1"%string;
       AncAfterJit.timestamp := AncAfterJit.Text "1700-01-01 00:00:00";
       AncAfterJit.fuel_category := Some "A"%string;
       AncAfterJit.ael := Some 10;
       AncAfterJit.abl := Some 1 |};
    {| AncAfterJit.imo := Some "IMO2"%string;
       AncAfterJit.timestamp := AncAfterJit.Text "2200-01-01 00:00:00";
       AncAfterJit.fuel_category := Some "A"%string;
       AncAfterJit.ael := Some 4;
       AncAfterJit.abl := Some 2 |} ].

(** Three observations of one vessel, the last two at the same
    instant, two hours after the first. *)
Definition tied_frame : AncAfterJit.frame :=
  {| AncAfterJit.has_timestamp := true;
     AncAfterJit.records :=
       [ {| AncAfterJit.imo := Some "IMO1"%string;
            AncAfterJit.timestamp := AncAfterJit.Datetime 0;
            AncAfterJit.fuel_category := Some "A"%string;
            AncAfterJit.ael := Some 1;
            AncAfterJit.abl := Some 0 |};
         {| AncAfterJit.imo := Some "IMO1"%string;
            AncAfterJit.timestamp := AncAfterJit.Datetime 7200000000000;
            AncAfterJit.fuel_category := Some "A"%string;
            AncAfterJit.ael := Some 2;
            AncAfterJit.abl := Some 0 |};
         {| AncAfterJit.imo := Some "IMO1"%string;
            AncAfterJit.timestamp := AncAfterJit.Datetime 7200000000000;
            AncAfterJit.fuel_category := Some "A"%string;
            AncAfterJit.ael := Some 3;
            AncAfterJit.abl := Some 0 |} ] |}.

End Samples.

(** ** What the jobs print

    The reports are modelled by the numbers and the rows they show, not
    by their text: formatting a number to two or six decimals is left
    to the printer. *)

Module Console.
Import Pandas.

(** [range(0, stop, step)] for a positive step. *)
Definition range_step (stop step : nat) : list nat :=
  (fun j => j * step)%nat <$> seq 0 ((stop + step - 1) / step).

(** [df.iloc[i:i+size]]. *)
Definition iloc {A : Type} (i size : nat) (rows : list A) : list A :=
  take size (drop i rows).

(** What reaches the console: the header of a block, the rows of a
    block, a call of [input] that waits for the operator. *)
Inductive event (A : Type) :=
  | Header (first last : nat)
  | Show (rows : list A)
  | Input (prompt : string).

Arguments Header {A} first last.
Arguments Show {A} rows.
Arguments Input {A} prompt.

Definition shown {A : Type} (e : event A) : list A :=
  match e with
  | Show rows => rows
  | _ => []
  end.

Definition is_input {A : Type} (e : event A) : bool :=
  match e with
  | Input _ => true
  | _ => false
  end.

(** The loop of Jobs A and B: blocks of 50 under a header, and a pause
    at the blocks that start at a positive multiple of 500. *)
Definition show_in_blocks {A : Type} (rows : list A) : list (event A) :=
  let total_imos := length rows in
  let block_size := 50%nat in
  range_step total_imos block_size ≫= (fun i =>
    [Header (i + 1) (Nat.min (i + block_size) total_imos);
     Show (iloc i block_size rows)]
    ++ (if (0 <? i)%nat && (i mod 500 =? 0)%nat
        then [Input "Press Enter to continue showing more IMOs..."]
        else [])).

(** The loop of Job C: blocks of 50, and a pause after each block that
    is not the last. *)
Definition show_with_pauses {A : Type} (merged : list A) : list (event A) :=
  range_step (length merged) 50 ≫= (fun i =>
    Show (iloc i 50 merged)
    :: (if (i + 50 <? length merged)%nat
        then [Input "Press Enter to see next 50 IMOs..."]
        else [])).

(** [(mask).sum()]: how many cells satisfy a test. *)
Definition count_where (test : Q -> bool) (col : list Q) : nat :=
  length (filter (fun x => test x) col).

(** [Series.nunique()]: the distinct present values; [unique] keeps a
    missing one, [nunique] does not count it. *)
Definition nunique {K : Type} `{EqDecision K} (col : list (option K)) : nat :=
  length (unique (omap id col)).

(** [Series.value_counts().sort_index()] of a categorical column: every
    category in category order with the number of rows that carry it;
    rows without category are not counted. *)
Definition value_counts (categories : list string)
    (col : list (option string)) : list (string * nat) :=
  (fun c => (c, length (filter (fun x => x = Some c) col))) <$> categories.

End Console.

(** ** Job B: what it reports *)

Module AncAfterJitReport.
Import Pandas Console AncAfterJit.

(** The two figures [load_data] prints. *)
Definition loaded_records (ais_data : list activity) : nat :=
  length ais_data.

Definition found_unique_imos (ais_data : list activity) : nat :=
  nunique (imo <$> ais_data).

(** The figures of the summary. *)
Definition total_unique_imos (final_emissions : list vessel_total) : nat :=
  length final_emissions.

Definition imos_with_nonzero_emissions (final_emissions : list vessel_total)
  : nat :=
  count_where (fun x => Qlt_bool 0 x) (anc_after_jit <$> final_emissions).

Definition imos_with_zero_emissions (final_emissions : list vessel_total)
  : nat :=
  count_where (fun x => Qeq_bool x 0) (anc_after_jit <$> final_emissions).

Definition total_emissions (final_emissions : list vessel_total) : Q :=
  sum (anc_after_jit <$> final_emissions).

Definition emission_ranges_distribution (final_emissions : list vessel_total)
  : list (string * nat) :=
  value_counts emission_labels (emission_range <$> final_emissions).

Definition complete_list (final_emissions : list vessel_total)
  : list (event vessel_total) :=
  show_in_blocks final_emissions.

End AncAfterJitReport.

(** ** Job A: what it reports and writes *)

Module AncBeforeJitReport.
Import Pandas Console AncBeforeJit.

(** [sort_values('anc_before_jit', ascending=False)]: largest first, a
    missing value last. *)
Definition value_geb (a b : option Q) : bool :=
  match a, b with
  | Some x, Some y => Qle_bool y x
  | _, None => true
  | None, Some _ => false
  end.

Definition value_ge (a b : option Q) : Prop := value_geb a b = true.

#[global] Instance value_ge_dec : RelDecision value_ge.
Proof. intros a b. unfold value_ge. apply _. Defined.

(** The table written to emissions_detailed_analysis.csv. *)
Definition detailed_output (emissions_df : list analysed) : list analysed :=
  sort_values value_ge (fun r : analysed => anc_before_jit r) emissions_df.

Definition complete_list (emissions_df : list analysed)
  : list (event analysed) :=
  show_in_blocks emissions_df.

(** Python's truth test on an argument that is [None] or an integer. *)
Definition truthy (x : option Z) : bool :=
  match x with
  | Some z => negb (z =? 0)%Z
  | None => false
  end.

(** [display_specific_imo_range]: the rows of the range, or nothing at
    all when a bound is not given or is 0. *)
Definition display_specific_imo_range (emissions_df : list analysed)
    (start_imo end_imo : option Z) : list (event analysed) :=
  if truthy start_imo && truthy end_imo then
    match start_imo, end_imo with
    | Some s, Some e =>
        [Show (filter (fun r : analysed => (s <=? imo r)%Z && (imo r <=? e)%Z)
                 emissions_df)]
    | _, _ => []
    end
  else [].

End AncBeforeJitReport.

(** ** Job C: what it reports *)

Module AncSavingsReport.
Import Pandas Console AncSavings.

Definition imos_with_positive_savings (merged : list saving) : nat :=
  count_where (fun x => Qlt_bool 0 x) (anc_savings_after_jit <$> merged).

Definition imos_with_no_savings (merged : list saving) : nat :=
  count_where (fun x => Qeq_bool x 0) (anc_savings_after_jit <$> merged).

Definition imos_with_negative_savings (merged : list saving) : nat :=
  count_where (fun x => Qlt_bool x 0) (anc_savings_after_jit <$> merged).

Definition total_savings (merged : list saving) : Q :=
  sum (anc_savings_after_jit <$> merged).

Definition range_dist (merged : list saving) : list (string * nat) :=
  value_counts savings_labels (savings_range <$> merged).

Definition complete_list (merged : list saving) : list (event saving) :=
  show_with_pauses merged.

End AncSavingsReport.

(** * Properties *)

(** ** Facts about the dataframe operations *)

Module PandasFacts.
Import Pandas.

Lemma Qlt_bool_iff x y : Qlt_bool x y = true <-> x < y.
Proof.
  unfold Qlt_bool. rewrite negb_true_iff. split.
  - intros H. apply Qnot_le_lt. intros Hle.
    apply Qle_bool_iff in Hle. congruence.
  - intros H. destruct (Qle_bool y x) eqn:E; [|reflexivity].
    apply Qle_bool_iff in E. lra.
Qed.

Lemma Qlt_bool_false x y : Qlt_bool x y = false <-> y <= x.
Proof.
  split.
  - intros H. destruct (Qlt_le_dec x y) as [Hlt|Hle]; [|exact Hle].
    apply Qlt_bool_iff in Hlt. congruence.
  - intros H. destruct (Qlt_bool x y) eqn:E; [|reflexivity].
    apply Qlt_bool_iff in E. lra.
Qed.

Lemma clip_upper_le u x : clip_upper u x <= u.
Proof.
  unfold clip_upper. destruct (Qlt_bool u x) eqn:E; [lra|].
  now apply Qlt_bool_false.
Qed.

Lemma clip_upper_nonneg u x : 0 <= u -> 0 <= x -> 0 <= clip_upper u x.
Proof. unfold clip_upper. destruct (Qlt_bool u x); auto. Qed.

Lemma sum_nonneg (l : list Q) : Forall (fun x => 0 <= x) l -> 0 <= sum l.
Proof.
  unfold sum. induction 1 as [|x l Hx _ IH]; simpl; lra.
Qed.

Lemma sort_values_perm {A K} (le : relation K) `{!RelDecision le}
    (key : A -> K) (rows : list A) :
  sort_values le key rows ≡ₚ rows.
Proof. apply merge_sort_Permutation. Qed.

Lemma elem_of_sort_values {A K} (le : relation K) `{!RelDecision le}
    (key : A -> K) (rows : list A) (x : A) :
  x ∈ sort_values le key rows <-> x ∈ rows.
Proof. now rewrite sort_values_perm. Qed.

Lemma insert_row_perm {A} (R : relation A) `{!RelDecision R}
    (x : A) (l : list A) :
  insert_row R x l ≡ₚ x :: l.
Proof.
  induction l as [|y l IH]; simpl; [done|].
  case_decide; [done|]. rewrite IH. apply Permutation_swap.
Qed.

Lemma lexsort_perm {A K} (le : relation K) `{!RelDecision le}
    (key : A -> K) (rows : list A) :
  lexsort le key rows ≡ₚ rows.
Proof.
  unfold lexsort. induction rows as [|x rows IH]; simpl; [done|].
  by rewrite insert_row_perm, IH.
Qed.

Lemma elem_of_lexsort {A K} (le : relation K) `{!RelDecision le}
    (key : A -> K) (rows : list A) (x : A) :
  x ∈ lexsort le key rows <-> x ∈ rows.
Proof. now rewrite lexsort_perm. Qed.

(** Putting a row in leaves the rows of a group as they were, the new
    row in front of them, when the rows of the group are not before
    one another. *)
Lemma insert_row_filter {A} (R : relation A) `{!RelDecision R}
    (P : A -> Prop) `{!forall x, Decision (P x)} (x : A) (l : list A) :
  (forall y, P x -> P y -> R x y) ->
  filter P (insert_row R x l) = filter P (x :: l).
Proof.
  intros Hclass. induction l as [|y l IH]; simpl; [done|].
  case_decide as Hxy; [done|].
  rewrite filter_cons, IH, !filter_cons.
  destruct (decide (P x)) as [Hx|Hx], (decide (P y)) as [Hy|Hy];
    try done.
  destruct Hxy. by apply Hclass.
Qed.

Section TableFacts.
Context {K : Type} `{EqDecision K}.

Lemma elem_of_unique_from (seen l : list K) (x : K) :
  x ∈ unique_from seen l <-> x ∈ l /\ x ∉ seen.
Proof.
  revert seen. induction l as [|y l IH]; intros seen; simpl.
  - set_solver.
  - destruct (decide (y ∈ seen)) as [Hy|Hy].
    + rewrite IH. set_solver.
    + rewrite elem_of_cons, IH.
      destruct (decide (x = y)) as [->|Hne]; set_solver.
Qed.

Lemma NoDup_unique_from (seen l : list K) : NoDup (unique_from seen l).
Proof.
  revert seen. induction l as [|y l IH]; intros seen; simpl.
  - constructor.
  - destruct (decide (y ∈ seen)); [apply IH|].
    apply NoDup_cons. split; [|apply IH].
    rewrite elem_of_unique_from. set_solver.
Qed.

Lemma elem_of_unique (l : list K) (x : K) : x ∈ unique l <-> x ∈ l.
Proof. unfold unique. rewrite elem_of_unique_from. set_solver. Qed.

Lemma NoDup_unique (l : list K) : NoDup (unique l).
Proof. apply NoDup_unique_from. Qed.

Lemma filter_none {A} (P : A -> Prop) `{forall x, Decision (P x)}
    (l : list A) :
  (forall x, x ∈ l -> ~ P x) -> filter P l = [].
Proof.
  induction l as [|x l IH]; intros Hl; [done|].
  rewrite filter_cons_False by (apply Hl; set_solver).
  apply IH. intros y Hy. apply Hl. set_solver.
Qed.

(** A key that occurs in a duplicate-free column selects one row. *)
Lemma filter_key_NoDup {A} (key : A -> K) (l : list A) (k : K) :
  NoDup (key <$> l) -> k ∈ key <$> l ->
  length (filter (fun r => key r = k) l) = 1%nat.
Proof.
  induction l as [|r l IH]; simpl; intros Hnd Hin.
  - set_solver.
  - apply NoDup_cons in Hnd as [Hr Hnd].
    rewrite filter_cons. destruct (decide (key r = k)) as [<-|Hne].
    + simpl. f_equal. apply length_zero_iff_nil, filter_none.
      intros x Hx Heq. apply Hr. rewrite <- Heq. set_solver.
    + apply IH; [done|]. set_solver.
Qed.

Lemma filter_key_at_most_one {A} (key : A -> K) (l : list A) (k : K) :
  NoDup (key <$> l) ->
  filter (fun r => key r = k) l = []
  \/ exists r, filter (fun r => key r = k) l = [r].
Proof.
  intros Hnd. destruct (decide (k ∈ key <$> l)) as [Hin|Hin].
  - right. pose proof (filter_key_NoDup key l k Hnd Hin) as Hlen.
    destruct (filter _ l) as [|r [|??]]; simpl in Hlen; try lia.
    now exists r.
  - left. apply filter_none. intros x Hx Heq. apply Hin.
    rewrite <- Heq. now apply list_elem_of_fmap_2.
Qed.

(** *** The left join *)

Section MergeLeft.
Context {L R : Type} (kl : L -> K) (kr : R -> K).

Lemma elem_of_merge_left (left : list L) (right : list R)
    (l : L) (m : option R) :
  (l, m) ∈ merge_left kl kr left right <->
  l ∈ left /\
  match m with
  | None => filter (fun r => kr r = kl l) right = []
  | Some r => r ∈ right /\ kr r = kl l
  end.
Proof.
  unfold merge_left. rewrite list_elem_of_bind. split.
  - intros (l' & Hin & Hl').
    destruct (filter _ right) as [|r0 ms] eqn:E.
    + apply list_elem_of_singleton in Hin. inversion Hin; subst.
      now split.
    + apply list_elem_of_fmap in Hin as (r & Heq & Hr).
      inversion Heq; subst. split; [done|].
      rewrite <- E in Hr. now apply list_elem_of_filter in Hr as [? ?].
  - intros [Hl Hm]. exists l. split; [|done].
    destruct m as [r|].
    + destruct Hm as [Hr Hk].
      assert (Hin : r ∈ filter (fun r => kr r = kl l) right)
        by now apply list_elem_of_filter.
      destruct (filter _ right) as [|r0 ms]; [set_solver|].
      now apply list_elem_of_fmap_2 with (f := fun r => (l, Some r)).
    + rewrite Hm. set_solver.
Qed.

(** Against a right table with distinct keys the left join keeps
    the left table row for row. *)
Lemma merge_left_fst (left : list L) (right : list R) :
  NoDup (kr <$> right) ->
  (merge_left kl kr left right).*1 = left.
Proof.
  intros Hnd. unfold merge_left.
  induction left as [|l left IH]; [done|].
  rewrite bind_cons, fmap_app, IH. 
  destruct (filter_key_at_most_one kr right (kl l) Hnd) as [->|[r ->]];
    done.
Qed.

(** Whatever the right table, no left row is lost and none is
    invented. *)
Lemma merge_left_covers (left : list L) (right : list R) (l : L) :
  l ∈ left <-> exists m, (l, m) ∈ merge_left kl kr left right.
Proof.
  split.
  - intros Hl. destruct (filter (fun r => kr r = kl l) right)
      as [|r ms] eqn:E.
    + exists None. now apply elem_of_merge_left.
    + exists (Some r). apply elem_of_merge_left. split; [done|].
      assert (Hin : r ∈ filter (fun r => kr r = kl l) right)
        by (rewrite E; set_solver).
      now apply list_elem_of_filter in Hin as [? ?].
  - intros [m Hm]. now apply elem_of_merge_left in Hm as [? _].
Qed.
End MergeLeft.
End TableFacts.

(** *** Grouped sums *)

Section GroupBy.
Context {R : Type} (key : R -> option string) (val : R -> Q).

Lemma groupby_sum_keys (rows : list R) :
  (groupby_sum key val rows).*1
  = merge_sort string_le (unique (omap key rows)).
Proof.
  unfold groupby_sum. rewrite <- list_fmap_compose. apply list_fmap_id.
Qed.

Lemma NoDup_groupby_sum (rows : list R) :
  NoDup (groupby_sum key val rows).*1.
Proof.
  rewrite groupby_sum_keys, merge_sort_Permutation. apply NoDup_unique.
Qed.

Lemma elem_of_groupby_sum_keys (rows : list R) (k : string) :
  k ∈ (groupby_sum key val rows).*1 <-> exists r, r ∈ rows /\ key r = Some k.
Proof.
  rewrite groupby_sum_keys, merge_sort_Permutation, elem_of_unique.
  apply list_elem_of_omap.
Qed.

Lemma elem_of_groupby_sum (rows : list R) (k : string) (v : Q) :
  (k, v) ∈ groupby_sum key val rows ->
  v = sum (val <$> filter (fun r => key r = Some k) rows).
Proof.
  unfold groupby_sum. intros Hin.
  apply list_elem_of_fmap in Hin as (k' & Heq & _). now inversion Heq.
Qed.
End GroupBy.

(** *** The orders [sort_values] uses *)

Lemma string_leb_trans (a b c : string) :
  String.leb a b = true -> String.leb b c = true -> String.leb a c = true.
Proof.
  unfold String.leb.
  destruct (String.compare a b) eqn:Eab; [| |discriminate].
  - apply String.compare_eq_iff in Eab as ->. done.
  - destruct (String.compare b c) eqn:Ebc; [| |discriminate]; intros _ _.
    + apply String.compare_eq_iff in Ebc as <-. by rewrite Eab.
    + apply String_as_OT.cmp_lt in Eab, Ebc.
      pose proof (String_as_OT.lt_trans _ _ _ Eab Ebc) as Hac.
      apply String_as_OT.cmp_lt in Hac.
      unfold String_as_OT.cmp in Hac. by rewrite Hac.
Qed.

#[global] Instance string_le_trans : Transitive string_le.
Proof. intros a b c. apply string_leb_trans. Qed.

#[global] Instance string_le_total : Total string_le.
Proof. intros a b. apply String.leb_total. Qed.

Lemma key_leb_trans (a b c : option string) :
  key_leb a b = true -> key_leb b c = true -> key_leb a c = true.
Proof.
  destruct a as [a|], b as [b|], c as [c|]; simpl; try done.
  apply string_leb_trans.
Qed.

Lemma key_leb_total (a b : option string) :
  key_leb a b = true \/ key_leb b a = true.
Proof.
  destruct a as [a|], b as [b|]; simpl; auto. apply String.leb_total.
Qed.

Lemma key_leb_antisym (a b : option string) :
  key_leb a b = true -> key_leb b a = true -> a = b.
Proof.
  destruct a as [a|], b as [b|]; simpl; try done.
  intros H1 H2. f_equal. by apply String.leb_antisym.
Qed.

#[global] Instance key_le_trans : Transitive key_le.
Proof. intros a b c. apply key_leb_trans. Qed.

#[global] Instance key_le_total : Total key_le.
Proof. intros a b. apply key_leb_total. Qed.

#[global] Instance by_key_trans {A K} (le : relation K) `{!Transitive le}
  (key : A -> K) : Transitive (by_key le key).
Proof. intros a b c. unfold by_key. apply transitivity. Qed.

#[global] Instance by_key_total {A K} (le : relation K) `{!Total le}
  (key : A -> K) : Total (by_key le key).
Proof. intros a b. unfold by_key. apply total. apply _. Qed.

(** [sort_values] does sort. *)
Lemma sort_values_sorted {A K} (le : relation K) `{!RelDecision le}
    `{!Transitive le} `{!Total le} (key : A -> K) (rows : list A) :
  StronglySorted (by_key le key) (sort_values le key rows).
Proof. apply StronglySorted_merge_sort; apply _. Qed.

Lemma insert_row_sorted {A} (R : relation A) `{!RelDecision R}
    `{!Transitive R} `{!Total R} (x : A) (l : list A) :
  StronglySorted R l -> StronglySorted R (insert_row R x l).
Proof.
  induction 1 as [|y l Hs IH Hall]; simpl.
  - repeat constructor.
  - case_decide as Hxy.
    + constructor; [by constructor|]. constructor; [done|].
      eapply Forall_impl; [exact Hall|].
      intros z Hz. by etransitivity.
    + constructor; [done|].
      rewrite insert_row_perm. constructor; [|done].
      by destruct (total R x y).
Qed.

(** [lexsort] does sort, and it is stable: the rows that share a key
    come out in the order they went in. *)
Lemma lexsort_sorted {A K} (le : relation K) `{!RelDecision le}
    `{!Transitive le} `{!Total le} (key : A -> K) (rows : list A) :
  StronglySorted (by_key le key) (lexsort le key rows).
Proof.
  unfold lexsort. induction rows as [|x rows IH]; simpl; [constructor|].
  apply insert_row_sorted; [apply _..|done].
Qed.

Lemma lexsort_stable {A K} `{EqDecision K} (le : relation K)
    `{!RelDecision le} `{!Total le} (key : A -> K) (rows : list A)
    (k : K) :
  filter (fun r => key r = k) (lexsort le key rows)
  = filter (fun r => key r = k) rows.
Proof.
  unfold lexsort. induction rows as [|x rows IH]; simpl; [done|].
  rewrite insert_row_filter, !filter_cons, IH; [done|].
  intros y Hx Hy. unfold by_key. rewrite Hx, Hy.
  by destruct (total le k k).
Qed.

End PandasFacts.

(** ** Job B *)

Module AncAfterJitFacts.
Import Pandas PandasFacts AncAfterJit.

(** *** calculate_duration *)

Lemma groupby_diff_rows (seen df : list activity) :
  (groupby_diff seen df).*1 = df.
Proof.
  revert seen. induction df as [|r df IH]; intros seen; simpl; [done|].
  now rewrite IH.
Qed.

Lemma find_no_vessel (seen : list activity) :
  List.find (same_vessel None) seen = None.
Proof. induction seen as [|s seen IH]; [done|exact IH]. Qed.

Lemma groupby_diff_delta (seen df : list activity) r d :
  (r, d) ∈ groupby_diff seen df ->
  exists prev, d = timedelta (timestamp r) prev
               /\ (imo r = None -> prev = None).
Proof.
  revert seen. induction df as [|r0 df IH]; intros seen; simpl.
  - intros Hin. apply elem_of_nil in Hin as [].
  - intros [Heq|Hin]%elem_of_cons; [|eauto].
    inversion Heq; subst. eexists. split; [done|].
    intros Hnone. rewrite Hnone. apply find_no_vessel.
Qed.

Lemma find_same_vessel_none (k : option string) (seen : list activity) :
  (forall s, s ∈ seen -> imo s <> k) ->
  List.find (same_vessel k) seen = None.
Proof.
  intros Hseen. induction seen as [|s seen IH]; simpl; [done|].
  assert (Hs : same_vessel k s = false).
  { unfold same_vessel. destruct k; [|done].
    apply bool_decide_eq_false. apply Hseen. set_solver. }
  rewrite Hs. apply IH. intros s' Hs'. apply Hseen. set_solver.
Qed.

(** The first row of a vessel has no difference. *)
Lemma groupby_diff_first (seen df : list activity) d1 p d2 :
  groupby_diff seen df = d1 ++ p :: d2 ->
  (forall s, s ∈ seen -> imo s <> imo p.1) ->
  (forall q, q ∈ d1 -> imo q.1 <> imo p.1) ->
  p.2 = None.
Proof.
  revert seen d1. induction df as [|r df IH]; intros seen d1; simpl.
  - intros Heq. now destruct d1.
  - destruct d1 as [|q d1]; simpl; intros Heq Hseen Hd1.
    + inversion Heq; subst. simpl in *.
      rewrite find_same_vessel_none by exact Hseen.
      now destruct (timestamp r).
    + inversion Heq; subst.
      eapply IH; [done| |].
      * intros s [->|Hs]%elem_of_cons; [|now apply Hseen].
        eapply (Hd1 (r, _)). apply list_elem_of_here.
      * intros q' Hq'. apply Hd1. set_solver.
Qed.

Lemma timedelta_not_datetime c prev :
  (forall ns, c <> Datetime ns) -> timedelta c prev = None.
Proof. intros Hc. destruct c; [now destruct (Hc ns)|done..]. Qed.

Lemma cap_24_le r : activity_duration_hours (cap_24 r) <= 24.
Proof. apply clip_upper_le. Qed.

(** The three ways through [calculate_duration]: no timestamp column;
    an exception, with one hour on every row of the sorted frame; the
    differences, none of which overflows. *)
Lemma calculate_duration_cases (fr : frame) :
  (has_timestamp fr = false
   /\ calculate_duration_try fr
      = Returned (cap_24 <$> (set_duration 1 <$> records fr)))
  \/ (has_timestamp fr = true
      /\ exists e, calculate_duration_try fr = Raised e (sorted_records fr))
  \/ (has_timestamp fr = true
      /\ forallb datetimelike (timestamp <$> sorted_records fr) = true
      /\ existsb overflows ((groupby_diff [] (sorted_records fr)).*2)
         = false
      /\ calculate_duration_try fr
         = Returned
             (cap_24
                <$> ((fun p => set_duration (fillna 1 (hours <$> p.2)) p.1)
                       <$> groupby_diff [] (sorted_records fr)))).
Proof.
  unfold calculate_duration_try.
  destruct (has_timestamp fr); [|by left].
  right. destruct (forallb _ _) eqn:Ecol; [|left; eauto].
  destruct (existsb _ _) eqn:Eover; [left; eauto|].
  right. done.
Qed.

Lemma sorted_records_perm (fr : frame) : sorted_records fr ≡ₚ records fr.
Proof. apply lexsort_perm. Qed.

(** The rows [calculate_duration] returns are the rows it was given,
    each with its duration. *)
Lemma calculate_duration_rows (fr : frame) :
  obs <$> calculate_duration fr ≡ₚ records fr.
Proof.
  unfold calculate_duration.
  destruct (calculate_duration_cases fr)
    as [[_ ->]|[(_ & e & ->)|(_ & _ & _ & ->)]].
  - rewrite <- !list_fmap_compose.
    rewrite (list_fmap_ext _ id) by done.
    now rewrite list_fmap_id.
  - rewrite <- list_fmap_compose.
    rewrite (list_fmap_ext _ id) by done.
    rewrite list_fmap_id. apply sorted_records_perm.
  - rewrite <- !list_fmap_compose.
    rewrite (list_fmap_ext _ fst) by done.
    rewrite groupby_diff_rows. apply sorted_records_perm.
Qed.

Lemma calculate_duration_obs (fr : frame) (r : timed) :
  r ∈ calculate_duration fr -> obs r ∈ records fr.
Proof.
  intros Hr. rewrite <- calculate_duration_rows.
  now apply list_elem_of_fmap_2.
Qed.

Lemma calculate_duration_le_24 (fr : frame) (r : timed) :
  r ∈ calculate_duration fr -> activity_duration_hours r <= 24.
Proof.
  unfold calculate_duration.
  destruct (calculate_duration_cases fr)
    as [[_ ->]|[(_ & e & ->)|(_ & _ & _ & ->)]].
  - intros (t & -> & _)%list_elem_of_fmap. apply cap_24_le.
  - intros (t & -> & _)%list_elem_of_fmap. simpl. lra.
  - intros (t & -> & _)%list_elem_of_fmap. apply cap_24_le.
Qed.

Lemma calculate_duration_raised (fr : frame) e df (r : timed) :
  calculate_duration_try fr = Raised e df ->
  r ∈ calculate_duration fr -> activity_duration_hours r = 1.
Proof.
  unfold calculate_duration. intros ->.
  now intros (t & -> & _)%list_elem_of_fmap.
Qed.

Lemma calculate_duration_no_column (fr : frame) (r : timed) :
  has_timestamp fr = false ->
  r ∈ calculate_duration fr -> activity_duration_hours r = 1.
Proof.
  unfold calculate_duration, calculate_duration_try. intros ->.
  rewrite <- list_fmap_compose.
  now intros (t & -> & _)%list_elem_of_fmap.
Qed.

Lemma calculate_duration_no_instant (fr : frame) (r : timed) :
  (forall ns, timestamp r <> Datetime ns) ->
  r ∈ calculate_duration fr -> activity_duration_hours r = 1.
Proof.
  intros Hts. unfold calculate_duration.
  destruct (calculate_duration_cases fr)
    as [[_ ->]|[(_ & e & ->)|(_ & _ & _ & ->)]].
  - rewrite <- list_fmap_compose.
    now intros (t & -> & _)%list_elem_of_fmap.
  - now intros (t & -> & _)%list_elem_of_fmap.
  - rewrite <- list_fmap_compose.
    intros ([a d] & -> & Hin)%list_elem_of_fmap. simpl in *.
    apply groupby_diff_delta in Hin as (prev & -> & _).
    now rewrite timedelta_not_datetime.
Qed.

Lemma calculate_duration_no_vessel (fr : frame) (r : timed) :
  imo r = None ->
  r ∈ calculate_duration fr -> activity_duration_hours r = 1.
Proof.
  intros Himo. unfold calculate_duration.
  destruct (calculate_duration_cases fr)
    as [[_ ->]|[(_ & e & ->)|(_ & _ & _ & ->)]].
  - rewrite <- list_fmap_compose.
    now intros (t & -> & _)%list_elem_of_fmap.
  - now intros (t & -> & _)%list_elem_of_fmap.
  - rewrite <- list_fmap_compose.
    intros ([a d] & -> & Hin)%list_elem_of_fmap. simpl in *.
    apply groupby_diff_delta in Hin as (prev & -> & Hprev).
    rewrite (Hprev Himo). now destruct (timestamp a).
Qed.

Lemma calculate_duration_first (fr : frame) before (r : timed) after :
  calculate_duration fr = before ++ r :: after ->
  (forall r' : timed, r' ∈ before -> imo r' <> imo r) ->
  activity_duration_hours r = 1.
Proof.
  intros Heq Hfirst.
  assert (Hr : r ∈ calculate_duration fr) by (rewrite Heq; set_solver).
  revert Heq Hr. unfold calculate_duration.
  destruct (calculate_duration_cases fr)
    as [[_ ->]|[(_ & e & ->)|(_ & _ & _ & ->)]].
  - rewrite <- list_fmap_compose.
    now intros _ (t & -> & _)%list_elem_of_fmap.
  - now intros _ (t & -> & _)%list_elem_of_fmap.
  - rewrite <- list_fmap_compose. intros Heq _.
    apply fmap_app_inv in Heq as (d1 & d2' & -> & Heq & Hdiff).
    destruct d2' as [|p d2]; [done|].
    rewrite fmap_cons in Heq. inversion Heq as [[Hp Hd2]]. clear Heq.
    apply groupby_diff_first in Hdiff as Hnone.
    + subst r. simpl. now rewrite Hnone.
    + intros s Hs. apply elem_of_nil in Hs as [].
    + intros q Hq Himo.
      apply (Hfirst (cap_24 (set_duration (fillna 1 (hours <$> q.2)) q.1))).
      * apply list_elem_of_fmap. now exists q.
      * subst r. exact Himo.
Qed.

(** *** preprocess_data and merge_emission_factors *)

Lemma preprocess_all_imos parse (ais : list activity) :
  (preprocess_data parse ais).2 = unique (imo <$> ais).
Proof.
  unfold preprocess_data. simpl. f_equal.
  rewrite <- list_fmap_compose. now apply list_fmap_ext.
Qed.

Lemma preprocess_rows parse (ais : list activity) (r : timed) :
  r ∈ (preprocess_data parse ais).1 ->
  exists a, a ∈ ais /\ imo r = imo a
            /\ timestamp r = to_datetime parse (timestamp a)
            /\ fuel_category r = fuel_category a
            /\ ael r = Some (fillna 0 (ael a))
            /\ abl r = Some (fillna 0 (abl a)).
Proof.
  unfold preprocess_data. simpl. intros Hr.
  apply calculate_duration_obs in Hr. simpl in Hr.
  rewrite <- list_fmap_compose in Hr.
  apply list_elem_of_fmap in Hr as (a & Heq & Ha).
  exists a. rewrite Heq. now simpl.
Qed.

Lemma preprocess_imos parse (ais : list activity) :
  (fun r : timed => imo r) <$> (preprocess_data parse ais).1 ≡ₚ imo <$> ais.
Proof.
  unfold preprocess_data. simpl.
  rewrite (list_fmap_compose obs imo), calculate_duration_rows. simpl.
  rewrite <- !list_fmap_compose. now rewrite (list_fmap_ext _ imo).
Qed.

Lemma merge_emission_factors_rows (data : list timed) aux boiler
    (m : merged) :
  m ∈ merge_emission_factors data aux boiler ->
  act m ∈ data /\ is_Some (sfc_ae m) /\ is_Some (sfc_ab m).
Proof.
  unfold merge_emission_factors.
  intros ([[t fa] fb] & -> & Hin)%list_elem_of_fmap. simpl.
  apply elem_of_merge_left in Hin as [Hin _].
  apply elem_of_merge_left in Hin as [Hin _].
  eauto.
Qed.

Lemma merge_emission_factors_covers (data : list timed) aux boiler t :
  t ∈ data ->
  exists m, m ∈ merge_emission_factors data aux boiler /\ act m = t.
Proof.
  intros Ht. unfold merge_emission_factors.
  apply (merge_left_covers (fun r : timed => fuel_category r)
           factor_fuel_category data aux) in Ht as [fa Hfa].
  apply (merge_left_covers (fun p : timed * option factor => fuel_category p.1)
           factor_fuel_category _ boiler) in Hfa as [fb Hfb].
  eexists. split.
  - apply list_elem_of_fmap. exists (t, fa, fb). split; [reflexivity|done].
  - done.
Qed.

(** *** calculate_emissions_after_jit *)

Lemma emissions_of_nonneg load factor duration :
  (forall l, load = Some l -> 0 <= l) ->
  (forall f, factor = Some f -> 0 <= f) ->
  0 <= duration ->
  0 <= emissions_of load factor duration.
Proof.
  intros Hl Hf Hd. unfold emissions_of.
  destruct load as [l|], factor as [f|]; try lra.
  specialize (Hl l eq_refl). specialize (Hf f eq_refl).
  repeat apply Qmult_le_0_compat; try done; lra.
Qed.

Lemma jit_le_3 (m : merged) :
  jit_activity_duration_hours (emission_of m) <= 3.
Proof. apply clip_upper_le. Qed.

Lemma emission_of_nonneg (m : merged) :
  (forall a, ael m = Some a -> 0 <= a) ->
  (forall b, abl m = Some b -> 0 <= b) ->
  (forall s, sfc_ae m = Some s -> 0 <= s) ->
  (forall s, sfc_ab m = Some s -> 0 <= s) ->
  0 <= activity_duration_hours m ->
  0 <= aux_emissions_after_jit (emission_of m)
  /\ 0 <= boiler_emissions_after_jit (emission_of m)
  /\ 0 <= total_emissions_grams_after_jit (emission_of m)
  /\ 0 <= total_emissions_tonnes_after_jit (emission_of m).
Proof.
  intros Ha Hb Hsa Hsb Hd.
  assert (Hjit : 0 <= clip_upper 3 (activity_duration_hours m))
    by (apply clip_upper_nonneg; [lra|done]).
  pose proof (emissions_of_nonneg _ _ _ Ha Hsa Hjit) as Haux.
  pose proof (emissions_of_nonneg _ _ _ Hb Hsb Hjit) as Hboiler.
  simpl. repeat split; try done; [lra|].
  apply Qle_shift_div_l; lra.
Qed.

(** *** aggregate_and_analyze_emissions *)

Lemma groupby_keys_NoDup {R} (key : R -> option string) (val : R -> Q)
    (rows : list R) :
  NoDup ((fun g : string * Q => Some g.1) <$> groupby_sum key val rows).
Proof.
  change (fun g : string * Q => Some g.1) with (Some ∘ @fst string Q).
  rewrite list_fmap_compose.
  apply (NoDup_fmap_2 Some), NoDup_groupby_sum.
Qed.

(** The vessel column of the result is the list of vessels it was asked
    for, reordered. *)
Lemma aggregate_vessels (data : list emission)
    (all_imos : list (option string)) :
  vessel <$> aggregate_and_analyze_emissions data all_imos ≡ₚ all_imos.
Proof.
  unfold aggregate_and_analyze_emissions.
  rewrite <- list_fmap_compose.
  rewrite (list_fmap_ext _ fst) by done.
  rewrite sort_values_perm, <- list_fmap_compose.
  rewrite (list_fmap_ext _ fst) by done.
  rewrite merge_left_fst; [done|]. apply groupby_keys_NoDup.
Qed.

(** Its value column: the sum over the vessel's rows, and zero for a
    vessel without rows or without identifier. *)
Lemma aggregate_value (data : list emission)
    (all_imos : list (option string)) (v : vessel_total) :
  v ∈ aggregate_and_analyze_emissions data all_imos ->
  match vessel v with
  | Some k =>
      if decide (Some k ∈ (fun r : emission => imo r) <$> data) then
        anc_after_jit v
        = sum (total_emissions_tonnes_after_jit
                 <$> filter (fun r : emission => imo r = Some k) data)
      else anc_after_jit v = 0
  | None => anc_after_jit v = 0
  end.
Proof.
  unfold aggregate_and_analyze_emissions.
  intros ([k x] & -> & Hin)%list_elem_of_fmap. simpl.
  apply elem_of_sort_values in Hin.
  apply list_elem_of_fmap in Hin as ([k' m] & Heq & Hin).
  simpl in Heq. inversion Heq; subst k' x. clear Heq.
  apply elem_of_merge_left in Hin as [_ Hm]. simpl in Hm.
  destruct m as [[s x]|]; simpl in *.
  - destruct Hm as [Hg <-].
    rewrite decide_True.
    + now apply elem_of_groupby_sum in Hg.
    + apply (list_elem_of_fmap_2 fst) in Hg. simpl in Hg.
      apply elem_of_groupby_sum_keys in Hg as (r & Hr & Hk).
      rewrite <- Hk.
      now apply (list_elem_of_fmap_2 (fun r : emission => imo r)).
  - destruct k as [k|]; [|done].
    rewrite decide_False; [done|].
    intros (r & Hk & Hr)%list_elem_of_fmap.
    assert (Hin : k ∈ (groupby_sum (fun r : emission => imo r)
                         total_emissions_tonnes_after_jit data).*1)
      by (apply elem_of_groupby_sum_keys; eauto).
    apply list_elem_of_fmap in Hin as (g & -> & Hg).
    eapply (filter_nil_not_elem_of _ _ g); [exact Hm| |exact Hg]. done.
Qed.

Lemma aggregate_nonneg (data : list emission)
    (all_imos : list (option string)) (v : vessel_total) :
  (forall r, r ∈ data -> 0 <= total_emissions_tonnes_after_jit r) ->
  v ∈ aggregate_and_analyze_emissions data all_imos ->
  0 <= anc_after_jit v.
Proof.
  intros Hdata Hv. apply aggregate_value in Hv.
  destruct (vessel v) as [k|]; [|rewrite Hv; lra].
  destruct (decide _); [|rewrite Hv; lra].
  rewrite Hv. apply sum_nonneg, Forall_fmap, Forall_forall.
  intros r Hr. apply list_elem_of_filter in Hr as [_ Hr]. now apply Hdata.
Qed.

Lemma main_unfold parse ais aux boiler :
  main parse ais aux boiler
  = aggregate_and_analyze_emissions (emissions_data parse ais aux boiler)
      (preprocess_data parse ais).2.
Proof.
  unfold main, emissions_data.
  now destruct (preprocess_data parse ais).
Qed.

(** In the job itself the vessels asked for are those of the AIS table,
    each once. *)
Lemma main_vessels parse ais aux boiler :
  vessel <$> main parse ais aux boiler ≡ₚ unique (imo <$> ais).
Proof.
  rewrite main_unfold, aggregate_vessels. now rewrite preprocess_all_imos.
Qed.

Lemma emissions_data_imos parse ais aux boiler (k : option string) :
  k ∈ (fun r : emission => imo r) <$> emissions_data parse ais aux boiler
  <-> k ∈ imo <$> ais.
Proof.
  rewrite <- (preprocess_imos parse ais). unfold emissions_data.
  unfold calculate_emissions_after_jit. split.
  - intros (e & -> & He)%list_elem_of_fmap.
    apply list_elem_of_fmap in He as (m & -> & Hm).
    apply merge_emission_factors_rows in Hm as [Hm _].
    now apply (list_elem_of_fmap_2 (fun r : timed => imo r)) in Hm.
  - intros (t & -> & Ht)%list_elem_of_fmap.
    apply (merge_emission_factors_covers _ aux boiler) in Ht
      as (m & Hm & <-).
    apply list_elem_of_fmap. exists (emission_of m). split; [done|].
    now apply list_elem_of_fmap_2.
Qed.

(** *** Durations are not negative *)

Lemma timestamp_leb_trans (a b c : timestamp_cell) :
  timestamp_leb a b = true -> timestamp_leb b c = true ->
  timestamp_leb a c = true.
Proof.
  destruct a, b, c; simpl; try done.
  - intros H1 H2. apply Z.leb_le. apply Z.leb_le in H1, H2. lia.
  - apply string_leb_trans.
Qed.

Lemma timestamp_leb_total (a b : timestamp_cell) :
  timestamp_leb a b = true \/ timestamp_leb b a = true.
Proof.
  destruct a, b; simpl; auto.
  - destruct (Z.leb_spec ns ns0); [auto|right; apply Z.leb_le; lia].
  - apply String.leb_total.
Qed.

#[global] Instance imo_timestamp_le_trans : Transitive imo_timestamp_le.
Proof.
  intros [ka ta] [kb tb] [kc tc]. unfold imo_timestamp_le. simpl.
  repeat case_decide; subst; try done.
  - apply timestamp_leb_trans.
  - intros H1 H2. exfalso. eauto using key_leb_antisym.
  - apply key_leb_trans.
Qed.

#[global] Instance imo_timestamp_le_total : Total imo_timestamp_le.
Proof.
  intros [ka ta] [kb tb]. unfold imo_timestamp_le. simpl.
  repeat case_decide; subst; try done.
  - apply timestamp_leb_total.
  - apply key_leb_total.
Qed.

Lemma find_same_vessel_some k seen p :
  List.find (same_vessel k) seen = Some p -> p ∈ seen /\ imo p = k.
Proof.
  intros Hfind. apply find_some in Hfind as [Hin Hsame].
  split; [by apply list_elem_of_In|].
  unfold same_vessel in Hsame. destruct k; [|done].
  by apply bool_decide_eq_true in Hsame.
Qed.

(** In a frame ordered by vessel and time, no row is earlier than the
    row before it of the same vessel. *)
Lemma groupby_diff_nonneg (seen df : list activity) r d :
  let key := fun r : activity => (imo r, timestamp r) in
  StronglySorted (by_key imo_timestamp_le key) df ->
  (forall s r', s ∈ seen -> r' ∈ df -> imo_timestamp_le (key s) (key r')) ->
  (r, Some d) ∈ groupby_diff seen df -> (0 <= d)%Z.
Proof.
  intros key. revert seen.
  induction df as [|r0 df IH]; intros seen Hsorted Hseen; simpl.
  - intros Hin. by apply elem_of_nil in Hin.
  - apply StronglySorted_inv in Hsorted as [Hsorted Hall].
    intros [Heq|Hin]%elem_of_cons.
    + inversion Heq as [[Hr Hd]]. subst r0. clear Heq.
      unfold timedelta in Hd.
      destruct (timestamp r) as [a| |] eqn:Ea; try done.
      destruct (List.find _ seen) as [p|] eqn:Ep; simpl in Hd; [|done].
      destruct (timestamp p) as [b| |] eqn:Eb; try done.
      apply find_same_vessel_some in Ep as [Hp Himo].
      specialize (Hseen p r Hp (list_elem_of_here _ _)).
      unfold imo_timestamp_le, key in Hseen. simpl in Hseen.
      rewrite decide_True, Ea, Eb in Hseen by done. simpl in Hseen.
      apply Z.leb_le in Hseen. inversion Hd. lia.
    + apply (IH (r0 :: seen)); [done| |done].
      intros s r' [->|Hs]%elem_of_cons Hr'.
      * rewrite Forall_forall in Hall. by apply Hall.
      * apply Hseen; [done|]. by apply list_elem_of_further.
Qed.

Lemma hours_nonneg (d : Z) : (0 <= d)%Z -> 0 <= hours d.
Proof.
  intros Hd. unfold hours.
  assert (0 <= inject_Z d) by (unfold Qle; simpl; lia).
  apply Qle_shift_div_l; [lra|]. apply Qle_shift_div_l; lra.
Qed.

(** No duration [calculate_duration] derives is negative. *)
Lemma calculate_duration_nonneg (fr : frame) (r : timed) :
  r ∈ calculate_duration fr -> 0 <= activity_duration_hours r.
Proof.
  unfold calculate_duration.
  destruct (calculate_duration_cases fr)
    as [[_ ->]|[(_ & e & ->)|(_ & _ & _ & ->)]].
  - rewrite <- list_fmap_compose.
    intros (t & -> & _)%list_elem_of_fmap. simpl.
    apply clip_upper_nonneg; lra.
  - intros (t & -> & _)%list_elem_of_fmap. simpl. lra.
  - rewrite <- list_fmap_compose.
    intros ([a d] & -> & Hin)%list_elem_of_fmap. simpl.
    apply clip_upper_nonneg; [lra|].
    destruct d as [d|]; simpl; [|lra].
    apply hours_nonneg.
    eapply (groupby_diff_nonneg [] _ a d); [| |exact Hin].
    + apply (lexsort_sorted imo_timestamp_le).
    + intros s r' Hs. by apply elem_of_nil in Hs.
Qed.

(** Job B end to end: non-negative loads and factors give non-negative
    aggregates, the durations needing no assumption. *)
Lemma main_nonneg parse (ais : list activity) (aux boiler : list factor)
    (v : vessel_total) :
  (forall x a, x ∈ ais -> ael x = Some a -> 0 <= a) ->
  (forall x b, x ∈ ais -> abl x = Some b -> 0 <= b) ->
  (forall f s, f ∈ aux -> sfc f = Some s -> 0 <= s) ->
  (forall f s, f ∈ boiler -> sfc f = Some s -> 0 <= s) ->
  v ∈ main parse ais aux boiler -> 0 <= anc_after_jit v.
Proof.
  intros Hael Habl Haux Hboiler. rewrite main_unfold.
  apply aggregate_nonneg.
  unfold emissions_data, calculate_emissions_after_jit.
  intros r (m & -> & Hm)%list_elem_of_fmap.
  assert (Hsfc : (forall s, sfc_ae m = Some s -> 0 <= s)
                 /\ (forall s, sfc_ab m = Some s -> 0 <= s)).
  { unfold merge_emission_factors in Hm.
    apply list_elem_of_fmap in Hm as ([[t fa] fb] & -> & Hin). simpl.
    apply elem_of_merge_left in Hin as [Hin Hfb].
    apply elem_of_merge_left in Hin as [_ Hfa]. simpl in *.
    split; intros s [= <-].
    - destruct fa as [fa|]; simpl; [|lra]. destruct Hfa as [Hfa _].
      destruct (sfc fa) as [q|] eqn:Eq; simpl; [by apply (Haux fa)|lra].
    - destruct fb as [fb|]; simpl; [|lra]. destruct Hfb as [Hfb _].
      destruct (sfc fb) as [q|] eqn:Eq; simpl; [by apply (Hboiler fb)|lra]. }
  destruct Hsfc as [Hsa Hsb].
  apply merge_emission_factors_rows in Hm as [Ht _].
  pose proof Ht as Hd. unfold preprocess_data in Hd. simpl in Hd.
  apply calculate_duration_nonneg in Hd.
  apply preprocess_rows in Ht as (x & Hx & _ & _ & _ & Ha & Hb).
  apply emission_of_nonneg; try done.
  - intros a. rewrite Ha. intros [= <-].
    destruct (ael x) as [q|] eqn:Eq; simpl; [by apply (Hael x)|lra].
  - intros b. rewrite Hb. intros [= <-].
    destruct (abl x) as [q|] eqn:Eq; simpl; [by apply (Habl x)|lra].
Qed.

(** The records come back sorted when there is a timestamp column, and
    as they were when there is none. *)
Lemma calculate_duration_order (fr : frame) :
  obs <$> calculate_duration fr
  = if has_timestamp fr then sorted_records fr else records fr.
Proof.
  unfold calculate_duration.
  destruct (calculate_duration_cases fr)
    as [[-> ->]|[(-> & e & ->)|(-> & _ & _ & ->)]].
  - rewrite <- !list_fmap_compose.
    rewrite (list_fmap_ext _ id) by done. apply list_fmap_id.
  - rewrite <- list_fmap_compose.
    rewrite (list_fmap_ext _ id) by done. apply list_fmap_id.
  - rewrite <- !list_fmap_compose.
    rewrite (list_fmap_ext _ fst) by done. apply groupby_diff_rows.
Qed.

(** *** Differences that do not fit 64 bits *)

(** Where a difference comes from: two rows of one vessel, both with
    an instant. *)
Lemma groupby_diff_source (seen df : list activity) r d :
  (r, Some d) ∈ groupby_diff seen df ->
  exists p a b,
    (p ∈ seen \/ p ∈ df) /\ r ∈ df /\ imo p = imo r
    /\ timestamp r = Datetime a /\ timestamp p = Datetime b
    /\ d = (a - b)%Z.
Proof.
  revert seen. induction df as [|r0 df IH]; intros seen; simpl.
  - intros Hin. by apply elem_of_nil in Hin.
  - intros [Heq|Hin]%elem_of_cons.
    + inversion Heq as [[Hr Hd]]. subst r0. clear Heq.
      unfold timedelta in Hd.
      destruct (timestamp r) as [a| |] eqn:Ea; try done.
      destruct (List.find _ seen) as [p|] eqn:Ep; simpl in Hd; [|done].
      destruct (timestamp p) as [b| |] eqn:Eb; try done.
      apply find_same_vessel_some in Ep as [Hp Himo].
      exists p, a, b. inversion Hd.
      repeat split; try done; [by left|apply list_elem_of_here].
    + apply IH in Hin as (p & a & b & Hp & Hr & Hrest).
      exists p, a, b. split; [|split; [by apply list_elem_of_further|done]].
      destruct Hp as [[->|Hp]%elem_of_cons|Hp].
      * right. apply list_elem_of_here.
      * by left.
      * right. by apply list_elem_of_further.
Qed.

Lemma existsb_overflows (diffs : list (activity * option Z)) :
  existsb overflows (diffs.*2) = true
  <-> exists r d, (r, Some d) ∈ diffs /\ fits_int64 d = false.
Proof.
  rewrite existsb_exists. split.
  - intros (o & Ho & Hover).
    apply list_elem_of_In, list_elem_of_fmap in Ho as ([r o'] & -> & Hin).
    simpl in Hover. destruct o' as [d|]; [|done].
    exists r, d. split; [done|]. by apply negb_true_iff.
  - intros (r & d & Hin & Hfit). exists (Some d). split.
    + apply list_elem_of_In, list_elem_of_fmap. by exists (r, Some d).
    + simpl. by rewrite Hfit.
Qed.

Lemma sorted_diff_nonneg (fr : frame) r d :
  (r, Some d) ∈ groupby_diff [] (sorted_records fr) -> (0 <= d)%Z.
Proof.
  intros Hin.
  eapply (groupby_diff_nonneg [] _ r d); [| |exact Hin].
  - apply (lexsort_sorted imo_timestamp_le).
  - intros s r' Hs. by apply elem_of_nil in Hs.
Qed.

(** The subtraction overflows only when two instants of one vessel
    are more than [int64_max] nanoseconds apart. *)
Lemma overflow_far_apart (fr : frame) :
  existsb overflows ((groupby_diff [] (sorted_records fr)).*2) = true ->
  exists x y a b,
    x ∈ records fr /\ y ∈ records fr /\ imo x = imo y
    /\ timestamp x = Datetime a /\ timestamp y = Datetime b
    /\ (int64_max < a - b)%Z.
Proof.
  intros (r & d & Hin & Hfit)%existsb_overflows.
  pose proof (sorted_diff_nonneg fr r d Hin) as Hpos.
  apply groupby_diff_source in Hin
    as (p & a & b & Hp & Hr & Himo & Ha & Hb & ->).
  destruct Hp as [Hp|Hp]; [by apply elem_of_nil in Hp|].
  apply elem_of_lexsort in Hp, Hr.
  exists r, p, a, b. repeat split; try done.
  unfold fits_int64 in Hfit.
  apply andb_false_iff in Hfit as [H|H]; apply Z.leb_gt in H;
    unfold int64_min, int64_max in *; lia.
Qed.

Lemma no_overflow_in_range (fr : frame) :
  (forall x y a b,
     x ∈ records fr -> y ∈ records fr -> imo x = imo y ->
     timestamp x = Datetime a -> timestamp y = Datetime b ->
     (a - b <= int64_max)%Z) ->
  existsb overflows ((groupby_diff [] (sorted_records fr)).*2) = false.
Proof.
  intros Hrange. apply not_true_iff_false.
  intros (x & y & a & b & Hx & Hy & Himo & Ha & Hb & Hfar)%overflow_far_apart.
  specialize (Hrange x y a b Hx Hy Himo Ha Hb). lia.
Qed.

(** *** The frame of the job *)

Lemma to_datetime_datetimelike parse c :
  datetimelike (to_datetime parse c) = true.
Proof.
  destruct c as [ns| |raw]; simpl; try done.
  destruct (parse raw); [destruct (in_bounds _)|]; done.
Qed.

Lemma elem_of_prepared parse (ais : list activity) (r : activity) :
  r ∈ records (prepared parse ais)
  <-> exists x, x ∈ ais
        /\ r = {| imo := imo x;
                  timestamp := to_datetime parse (timestamp x);
                  fuel_category := fuel_category x;
                  ael := Some (fillna 0 (ael x));
                  abl := Some (fillna 0 (abl x)) |}.
Proof.
  unfold prepared. simpl. rewrite <- list_fmap_compose.
  rewrite list_elem_of_fmap. split.
  - intros (x & -> & Hx). by exists x.
  - intros (x & Hx & ->). by exists x.
Qed.

Lemma prepared_datetimelike parse (ais : list activity) :
  forallb datetimelike (timestamp <$> sorted_records (prepared parse ais))
  = true.
Proof.
  apply forallb_forall. intros c Hc.
  apply list_elem_of_In, list_elem_of_fmap in Hc as (r & -> & Hr).
  apply elem_of_lexsort, elem_of_prepared in Hr as (x & _ & ->).
  apply to_datetime_datetimelike.
Qed.

(** In the job the derivation can only fail by overflow. *)
Lemma prepared_raised parse (ais : list activity) e df :
  calculate_duration_try (prepared parse ais) = Raised e df ->
  e = OverflowError
  /\ df = sorted_records (prepared parse ais)
  /\ existsb overflows
       ((groupby_diff [] (sorted_records (prepared parse ais))).*2) = true.
Proof.
  destruct (calculate_duration_cases (prepared parse ais))
    as [[Hcol _]|[(_ & e' & He)|(_ & _ & _ & He)]].
  - done.
  - rewrite He. intros [= <- <-]. revert He.
    unfold calculate_duration_try.
    replace (has_timestamp (prepared parse ais)) with true by done.
    rewrite prepared_datetimelike.
    destruct (existsb _ _); [|done]. by intros [= <-].
  - by rewrite He.
Qed.

End AncAfterJitFacts.

(** ** Job C *)

Module AncSavingsFacts.
Import Pandas PandasFacts AncSavings.

Section MergeOuter.
Context {K L R : Type} `{EqDecision K}.
Context (le : relation K) `{!RelDecision le} (kl : L -> K) (kr : R -> K).

Lemma elem_of_merge_outer (left : list L) (right : list R)
    (k : K) (ol : option L) (or : option R) :
  (k, ol, or) ∈ merge_outer le kl kr left right <->
  (exists l, ol = Some l /\ k = kl l
             /\ (l, or) ∈ merge_left kl kr left right)
  \/ (ol = None /\ exists r, or = Some r /\ k = kr r /\ r ∈ right
                             /\ kr r ∉ kl <$> left).
Proof.
  unfold merge_outer.
  rewrite elem_of_sort_values, elem_of_app, !list_elem_of_fmap.
  split.
  - intros [([l m] & Heq & Hin)|(r & Heq & Hin)];
      inversion Heq; subst; simpl in *.
    + left. eauto.
    + right. apply list_elem_of_filter in Hin as [? ?]. eauto 10.
  - intros [(l & -> & -> & Hin)|(-> & r & -> & -> & Hr & Hnot)].
    + left. now exists (l, or).
    + right. exists r. split; [done|]. now apply list_elem_of_filter.
Qed.

(** The key column of the outer join, when no key repeats within the
    right table: the left keys, then the right keys the left table
    lacks. *)
Lemma merge_outer_keys (left : list L) (right : list R) :
  NoDup (kr <$> right) ->
  (fun row => row.1.1) <$> merge_outer le kl kr left right
  ≡ₚ (kl <$> left)
     ++ (kr <$> filter (fun r => kr r ∉ kl <$> left) right).
Proof.
  intros Hnd. unfold merge_outer.
  rewrite sort_values_perm, fmap_app, <- !list_fmap_compose.
  rewrite (list_fmap_ext _ (kl ∘ fst) (merge_left _ _ _ _)) by done.
  rewrite (list_fmap_ext _ kr (filter _ _)) by done.
  rewrite (list_fmap_compose fst kl), merge_left_fst by done.
  done.
Qed.

Lemma merge_outer_keys_NoDup (left : list L) (right : list R) :
  NoDup (kl <$> left) -> NoDup (kr <$> right) ->
  NoDup ((fun row => row.1.1) <$> merge_outer le kl kr left right).
Proof.
  intros Hl Hr. rewrite merge_outer_keys by done.
  apply NoDup_app. split; [done|]. split.
  - intros k Hk (r & -> & Hin)%list_elem_of_fmap.
    now apply list_elem_of_filter in Hin as [Hnot _].
  - apply NoDup_fmap_2_strong; [|apply NoDup_filter; eapply NoDup_fmap_1; done].
    intros x y Hx Hy Heq.
    apply list_elem_of_filter in Hx as [_ Hx].
    apply list_elem_of_filter in Hy as [_ Hy].
    clear Hl. induction right as [|r right IH]; [set_solver|].
    rewrite fmap_cons in Hr. apply NoDup_cons in Hr as [Hnot Hr].
    apply elem_of_cons in Hx as [->|Hx]; apply elem_of_cons in Hy as [->|Hy];
      try done.
    + destruct Hnot. rewrite Heq. now apply list_elem_of_fmap_2.
    + destruct Hnot. rewrite <- Heq. now apply list_elem_of_fmap_2.
    + now apply IH.
Qed.

Lemma merge_outer_covers (left : list L) (right : list R) (k : K) :
  k ∈ (fun row => row.1.1) <$> merge_outer le kl kr left right
  <-> k ∈ kl <$> left \/ k ∈ kr <$> right.
Proof.
  rewrite list_elem_of_fmap. split.
  - intros ([[k' ol] or] & -> & Hin). simpl.
    apply elem_of_merge_outer in Hin
      as [(l & -> & -> & Hin)|(-> & r & -> & -> & Hr & _)].
    + left. apply elem_of_merge_left in Hin as [Hl _].
      now apply list_elem_of_fmap_2.
    + right. now apply list_elem_of_fmap_2.
  - intros [(l & -> & Hl)%list_elem_of_fmap|(r & -> & Hr)%list_elem_of_fmap].
    + apply (merge_left_covers kl kr left right) in Hl as [m Hm].
      exists (kl l, Some l, m). split; [done|].
      apply elem_of_merge_outer. left. eauto.
    + destruct (decide (kr r ∈ kl <$> left)) as [Hin|Hnot].
      * apply list_elem_of_fmap in Hin as (l & Heq & Hl).
        exists (kl l, Some l, Some r). split; [done|].
        apply elem_of_merge_outer. left. exists l.
        repeat split; try done. apply elem_of_merge_left. eauto.
      * exists (kr r, None, Some r). split; [done|].
        apply elem_of_merge_outer. right. eauto 10.
Qed.
End MergeOuter.

(** A row of the savings table, traced back to the merge. *)
Lemma elem_of_savings_table (before_jit after_jit : list aggregate)
    (s : saving) :
  s ∈ savings_table before_jit after_jit <->
  exists ob oa,
    (vessel s, ob, oa) ∈ merge_outer string_le imo imo before_jit after_jit
    /\ s = {| vessel := vessel s;
              anc_before_jit := fillna 0 (ob ≫= value);
              anc_after_jit := fillna 0 (oa ≫= value);
              anc_savings_after_jit :=
                fillna 0 (ob ≫= value) - fillna 0 (oa ≫= value);
              savings_range :=
                cut savings_bins savings_labels
                  (fillna 0 (ob ≫= value) - fillna 0 (oa ≫= value)) |}.
Proof.
  unfold savings_table. split.
  - intros (p & -> & Hp)%list_elem_of_fmap.
    apply elem_of_sort_values in Hp.
    apply list_elem_of_fmap in Hp as (q & -> & Hq).
    apply list_elem_of_fmap in Hq as ([[k ob] oa] & -> & Hin).
    simpl. eauto.
  - intros (ob & oa & Hin & ->). simpl.
    set (b := fillna 0 (ob ≫= value)). set (a := fillna 0 (oa ≫= value)).
    apply list_elem_of_fmap. exists (vessel s, b, a, b - a).
    split; [done|]. apply elem_of_sort_values.
    apply list_elem_of_fmap. exists (vessel s, b, a).
    split; [done|].
    apply list_elem_of_fmap. exists (vessel s, ob, oa). now split.
Qed.

Lemma savings_table_vessels (before_jit after_jit : list aggregate) :
  vessel <$> savings_table before_jit after_jit
  ≡ₚ (fun row => row.1.1)
       <$> merge_outer string_le imo imo before_jit after_jit.
Proof.
  unfold savings_table.
  rewrite <- list_fmap_compose.
  rewrite (list_fmap_ext _ (fun p : string * Q * Q * Q => p.1.1.1)) by done.
  rewrite sort_values_perm, <- !list_fmap_compose.
  now rewrite (list_fmap_ext _
                 (fun row : string * option aggregate * option aggregate =>
                    row.1.1)).
Qed.

End AncSavingsFacts.

(** ** Range bucketing *)

Module CutFacts.
Import Pandas PandasFacts.

Ltac cut_cases :=
  unfold cut; simpl;
  repeat (match goal with
          | |- context [Qlt_bool ?a ?x] =>
              let E := fresh "E" in
              destruct (Qlt_bool a x) eqn:E;
              [apply Qlt_bool_iff in E | apply Qlt_bool_false in E]; simpl
          end).

(** The first emission bin is open at zero. *)
Lemma emission_range_nonpositive (x : Q) :
  x <= 0 -> cut AncAfterJit.emission_bins AncAfterJit.emission_labels x = None.
Proof. intros Hx. cut_cases; first [done | lra]. Qed.

Lemma emission_range_zero_bin (x : Q) :
  cut AncAfterJit.emission_bins AncAfterJit.emission_labels x
  = Some "Zero"%string <-> 0 < x /\ x <= 0.001.
Proof.
  cut_cases;
    (split; [intros ? | intros [? ?]]; first [done | lra]).
Qed.

Lemma savings_range_negative (x : Q) :
  cut AncSavings.savings_bins AncSavings.savings_labels x
  = Some "Negative"%string <-> x <= -0.001.
Proof. cut_cases; (split; intros ?; first [done | lra]). Qed.

Lemma savings_range_zero (x : Q) :
  cut AncSavings.savings_bins AncSavings.savings_labels x
  = Some "Zero"%string <-> -0.001 < x /\ x <= 0.001.
Proof.
  cut_cases;
    (split; [intros ? | intros [? ?]]; first [done | lra]).
Qed.

End CutFacts.

(** ** Job A *)

Module AncBeforeJitFacts.
Import Pandas PandasFacts AncBeforeJit.

Lemma load_and_analyze_data_rows (emissions_df : list vessel_emission) :
  row <$> load_and_analyze_data emissions_df ≡ₚ emissions_df.
Proof.
  unfold load_and_analyze_data. rewrite <- list_fmap_compose.
  rewrite (list_fmap_ext _ id) by done.
  rewrite list_fmap_id. apply sort_values_perm.
Qed.

Lemma load_and_analyze_data_range (emissions_df : list vessel_emission)
    (r : analysed) :
  r ∈ load_and_analyze_data emissions_df ->
  emission_range r
  = cut_cell emission_bins emission_labels (anc_before_jit r).
Proof.
  unfold load_and_analyze_data.
  now intros (v & -> & _)%list_elem_of_fmap.
Qed.

End AncBeforeJitFacts.

(** ** The scripts' top level *)

Module ScriptFacts.
Import Script.

Lemma name_not_builtin : "name"%string ∉ builtin_names.
Proof. apply (bool_decide_unpack _). by vm_compute. Qed.

Lemma load_name_unbound (g : gmap string pyobj) :
  g !! "name"%string = None -> load_name g "name" = inl (NameError "name").
Proof.
  intros Hg. unfold load_name. rewrite Hg.
  now rewrite decide_False by apply name_not_builtin.
Qed.

Lemma guarded_entry_unbound entry target (g : gmap string pyobj) :
  g !! "name"%string = None ->
  guarded_entry "name" entry target g
  = {| raised := Some (NameError "name"); calls := []; globals := g |}.
Proof. intros Hg. unfold guarded_entry. now rewrite load_name_unbound. Qed.

Lemma anc_after_jit_py_raises (g : gmap string pyobj) :
  g !! "name"%string = None ->
  raised (anc_after_jit_py g) = Some (NameError "name")
  /\ calls (anc_after_jit_py g) = [].
Proof.
  intros Hg. unfold anc_after_jit_py.
  rewrite guarded_entry_unbound; [done|].
  unfold def, import_as. now rewrite !lookup_insert_ne.
Qed.

Lemma anc_before_jit_py_raises (g : gmap string pyobj) :
  g !! "name"%string = None ->
  raised (anc_before_jit_py g) = Some (NameError "name")
  /\ calls (anc_before_jit_py g) = [].
Proof.
  intros Hg. unfold anc_before_jit_py.
  rewrite guarded_entry_unbound; [done|].
  unfold def, import_as. now rewrite !lookup_insert_ne.
Qed.

Lemma script_globals_name file : script_globals file !! "name"%string = None.
Proof. unfold script_globals. now rewrite !lookup_insert_ne. Qed.

(** The third script spells the guard correctly and does reach its
    entry point. *)
Lemma anc_savings_after_jit_py_runs file :
  raised (anc_savings_after_jit_py (script_globals file)) = None
  /\ calls (anc_savings_after_jit_py (script_globals file))
     = ["calculate_emission_savings"%string].
Proof.
  unfold anc_savings_after_jit_py, guarded_entry, load_name, def, import_as.
  rewrite !lookup_insert_ne by done.
  unfold script_globals. rewrite lookup_insert_eq. done.
Qed.

End ScriptFacts.

(** * The claims of the specification *)

Section JobB.
Import Pandas PandasFacts AncAfterJit AncAfterJitFacts Samples.

(** Claim C1.  Job B computes emissions for every activity record:
    the emissions table has one row for each row of the table of
    records with their factors, in the same order and carrying that
    row, and every AIS record has a row in it, with its vessel, fuel
    category and timestamp and with its loads, a missing load read as
    0.  In every such row the loads and the factors are present, the
    auxiliary (resp. boiler) emissions in grams are [ael] (resp. [abl])
    times the JIT-capped duration times [sfc_ae] (resp. [sfc_ab]) times
    0.867 times 3.667, the JIT-capped duration being the derived
    duration clipped at 3; the total in grams is the sum of the two and
    the total in tonnes is that sum divided by 1,000,000. *)
Theorem emissions_formula parse ais aux boiler :
  src <$> emissions_data parse ais aux boiler
  = merge_emission_factors (preprocess_data parse ais).1 aux boiler
  /\ (forall x, x ∈ ais ->
        exists r : emission,
          r ∈ emissions_data parse ais aux boiler
          /\ imo r = imo x
          /\ fuel_category r = fuel_category x
          /\ timestamp r = to_datetime parse (timestamp x)
          /\ ael r = Some (fillna 0 (ael x))
          /\ abl r = Some (fillna 0 (abl x)))
  /\ (forall r : emission,
        r ∈ emissions_data parse ais aux boiler ->
        exists a b sa sb,
          ael r = Some a /\ abl r = Some b
          /\ sfc_ae r = Some sa /\ sfc_ab r = Some sb
          /\ jit_activity_duration_hours r
             = clip_upper 3 (activity_duration_hours r)
          /\ aux_emissions_after_jit r
             = a * jit_activity_duration_hours r * sa * 0.867 * 3.667
          /\ boiler_emissions_after_jit r
             = b * jit_activity_duration_hours r * sb * 0.867 * 3.667
          /\ total_emissions_grams_after_jit r
             = aux_emissions_after_jit r + boiler_emissions_after_jit r
          /\ total_emissions_tonnes_after_jit r
             = total_emissions_grams_after_jit r / 1000000).
Proof.
  split; [|split].
  - unfold emissions_data, calculate_emissions_after_jit.
    rewrite <- list_fmap_compose.
    rewrite (list_fmap_ext _ id) by done. apply list_fmap_id.
  - intros x Hx.
    assert (Hrec : {| imo := imo x;
                      timestamp := to_datetime parse (timestamp x);
                      fuel_category := fuel_category x;
                      ael := Some (fillna 0 (ael x));
                      abl := Some (fillna 0 (abl x)) |}
                   ∈ records (prepared parse ais))
      by (apply elem_of_prepared; eauto).
    rewrite <- (calculate_duration_rows (prepared parse ais)) in Hrec.
    apply list_elem_of_fmap in Hrec as (t & Ht & Hin).
    apply (merge_emission_factors_covers _ aux boiler) in Hin
      as (m & Hm & Hact).
    exists (emission_of m). split.
    + unfold emissions_data, calculate_emissions_after_jit.
      by apply list_elem_of_fmap_2.
    + simpl. rewrite Hact, <- Ht. done.
  - unfold emissions_data, calculate_emissions_after_jit.
    intros r (m & -> & Hm)%list_elem_of_fmap.
    apply merge_emission_factors_rows in Hm as (Ht & [sa Hsa] & [sb Hsb]).
    apply preprocess_rows in Ht as (x & _ & _ & _ & _ & Ha & Hb).
    exists (fillna 0 (ael x)), (fillna 0 (abl x)), sa, sb.
    simpl. rewrite Ha, Hb, Hsa, Hsb. simpl. by repeat split.
Qed.

(** On the samples: three records give three rows; the second, the
    later observation of IMO1, five hours after the first, is computed
    on three hours and emits 10 * 3 * 2 * 0.867 * 3.667 grams from its
    auxiliary engine and nothing from its boiler, whose load is
    missing. *)
Lemma emissions_formula_witness :
  length (emissions_data parse_sample ais_sample aux_sample boiler_sample)
  = 3%nat
  /\ match emissions_data parse_sample ais_sample aux_sample boiler_sample
     with
     | [_; r; _] =>
         imo r = Some "IMO1"%string
         /\ ael r = Some 10 /\ abl r = Some 0
         /\ sfc_ae r = Some 2 /\ sfc_ab r = Some 3
         /\ activity_duration_hours r == 5
         /\ jit_activity_duration_hours r == 3
         /\ aux_emissions_after_jit r == 10 * 3 * 2 * 0.867 * 3.667
         /\ boiler_emissions_after_jit r == 0
         /\ total_emissions_tonnes_after_jit r == 0.00019075734
     | _ => False
     end.
Proof.
  destruct (emissions_formula parse_sample ais_sample aux_sample
              boiler_sample) as (Hrows & _ & Hformula).
  split.
  { rewrite <- (length_fmap src), Hrows. reflexivity. }
  destruct (emissions_data parse_sample ais_sample aux_sample boiler_sample)
    as [|r1 [|r [|r3 [|r4 rest]]]] eqn:E;
    try (vm_compute in E; discriminate E).
  destruct (Hformula r) as (a & b & sa & sb & Ha & Hb & Hsa & Hsb
                            & Hjit & Haux & Hboiler & Hgrams & Htonnes).
  { apply list_elem_of_further, list_elem_of_here. }
  rewrite Htonnes, Hgrams, Haux, Hboiler, Hjit.
  vm_compute in E. injection E as _ <- _.
  simpl in Ha, Hb, Hsa, Hsb.
  injection Ha as <-. injection Hb as <-.
  injection Hsa as <-. injection Hsb as <-.
  repeat split; reflexivity.
Defined.

(** Claim C4.  Every duration [calculate_duration] derives is at most 24
    hours and every JIT-capped duration Job B uses is at most 3 hours.
    The duration is exactly 1 hour when the frame has no timestamp
    column, when the record's timestamp is missing or is not a valid
    instant, when the record is the first of its vessel in the sorted
    frame, and for every record when the derivation raises; in Job B a
    record whose timestamp text is missing or does not parse is such a
    record. *)
Theorem duration_bounds :
  (forall fr (r : timed),
     r ∈ calculate_duration fr -> activity_duration_hours r <= 24)
  /\ (forall data (r : emission),
        r ∈ calculate_emissions_after_jit data ->
        jit_activity_duration_hours r <= 3)
  /\ (forall fr (r : timed),
        r ∈ calculate_duration fr ->
        has_timestamp fr = false
        \/ timestamp r = NaT
        \/ (exists s, timestamp r = Text s)
        \/ (exists e df, calculate_duration_try fr = Raised e df) ->
        activity_duration_hours r = 1)
  /\ (forall fr before (r : timed) after,
        calculate_duration fr = before ++ r :: after ->
        (forall r' : timed, r' ∈ before -> imo r' <> imo r) ->
        activity_duration_hours r = 1)
  /\ (forall parse ais (r : timed),
        r ∈ (preprocess_data parse ais).1 ->
        exists a, a ∈ ais /\ imo r = imo a
          /\ timestamp r = to_datetime parse (timestamp a)
          /\ (timestamp a = NaT
               \/ (exists s, timestamp a = Text s /\ parse s = None) ->
               activity_duration_hours r = 1)).
Proof.
  split; [exact calculate_duration_le_24|].
  split.
  { intros data r (m & -> & _)%list_elem_of_fmap. apply jit_le_3. }
  split.
  { intros fr r Hr [Hcol|[Hnat|[[s Hs]|(e & df & Hraise)]]].
    - by apply (calculate_duration_no_column fr).
    - apply (calculate_duration_no_instant fr); [|done].
      intros ns. by rewrite Hnat.
    - apply (calculate_duration_no_instant fr); [|done].
      intros ns. by rewrite Hs.
    - by apply (calculate_duration_raised fr e df). }
  split; [exact calculate_duration_first|].
  intros parse ais r Hr.
  destruct (preprocess_rows parse ais r Hr) as (a & Ha & Himo & Hts & _).
  exists a. repeat split; try done.
  intros Hbad. unfold preprocess_data in Hr. simpl in Hr.
  apply calculate_duration_no_instant in Hr; [done|].
  intros ns. rewrite Hts.
  destruct Hbad as [->|(s & -> & Hs)]; simpl; [done|]. by rewrite Hs.
Qed.

(** On the samples: the converted table has the first row of IMO1 at one
    hour, its second row within 24 hours and the row without instant at
    one hour; the frame without timestamp column and the frame with
    unconverted text have one hour throughout; the JIT durations of the
    job stay within 3 hours; the row of the job whose timestamp text
    does not parse has one hour. *)
Lemma duration_bounds_witness :
  (preprocess_data parse_sample ais_sample).1 = calculate_duration parsed_frame
  /\ match calculate_duration parsed_frame with
     | [r1; r2; r3] =>
         activity_duration_hours r1 = 1
         /\ activity_duration_hours r2 <= 24
         /\ activity_duration_hours r3 = 1
         /\ (exists a, a ∈ ais_sample
                /\ timestamp a = Text "yesterday" /\ imo r3 = imo a)
     | _ => False
     end
  /\ Forall (fun r => activity_duration_hours r = 1)
        (calculate_duration bare_frame)
  /\ Forall (fun r => activity_duration_hours r = 1)
        (calculate_duration text_frame)
  /\ Forall (fun r : emission => jit_activity_duration_hours r <= 3)
        (emissions_data parse_sample ais_sample aux_sample boiler_sample).
Proof.
  destruct duration_bounds as (H24 & H3 & H1 & Hfirst & Hjob).
  split; [reflexivity|]. split; [|split; [|split]].
  - pose proof (Hjob parse_sample ais_sample) as Hjob'.
    change (preprocess_data parse_sample ais_sample).1
      with (calculate_duration parsed_frame) in Hjob'.
    destruct (calculate_duration parsed_frame)
      as [|r1 [|r2 [|r3 [|r4 rest]]]] eqn:E;
      try (vm_compute in E; discriminate E).
    assert (Hin2 : r2 ∈ calculate_duration parsed_frame)
      by (rewrite E; apply list_elem_of_further, list_elem_of_here).
    assert (Hin3 : r3 ∈ [r1; r2; r3])
      by (do 2 apply list_elem_of_further; apply list_elem_of_here).
    pose proof E as E'. vm_compute in E'.
    split; [|split; [|split]].
    + apply (Hfirst parsed_frame [] r1 [r2; r3] E).
      intros r' Hr'. by apply elem_of_nil in Hr'.
    + apply (H24 parsed_frame r2 Hin2).
    + destruct (Hjob' r3 Hin3) as (a & Ha & Himo & _ & Hbad).
      apply Hbad. clear Hbad.
      injection E' as _ _ <-. simpl in Himo.
      repeat (apply elem_of_cons in Ha as [->|Ha]);
        try discriminate Himo; [|by apply elem_of_nil in Ha].
      right. exists "yesterday"%string. split; reflexivity.
    + destruct (Hjob' r3 Hin3) as (a & Ha & Himo & _).
      exists a. repeat split; try done.
      injection E' as _ _ <-. simpl in Himo.
      repeat (apply elem_of_cons in Ha as [->|Ha]);
        try discriminate Himo; [reflexivity|by apply elem_of_nil in Ha].
  - apply Forall_forall. intros r Hr. apply (H1 bare_frame r Hr).
    left. reflexivity.
  - apply Forall_forall. intros r Hr. apply (H1 text_frame r Hr).
    right. right. right. exists TypeError. eexists. reflexivity.
  - apply Forall_forall. intros r Hr. by apply (H3 _ r Hr).
Defined.

(** Claim C8.  When the duration derivation raises,
    [calculate_duration] does not pass the exception on: it returns the
    records it was given, each once, with a duration of 1 hour on every
    one, and the stages that follow compute on that hour.  In Job B
    the derivation can raise: the timestamps are converted, so only the
    subtraction can fail, with [OverflowError], which takes two
    observations of one vessel more than 2^63 - 1 nanoseconds apart.
    The job then goes on: every record is given 1 hour, its emissions
    are those of one hour, and the result still has one row for every
    vessel of the AIS table. *)
Theorem calculate_duration_swallows_errors :
  (forall fr e df,
     calculate_duration_try fr = Raised e df ->
     obs <$> calculate_duration fr ≡ₚ records fr
     /\ Forall (fun r : timed => activity_duration_hours r = 1)
          (calculate_duration fr)
     /\ forall aux boiler,
          Forall (fun r : emission =>
                    activity_duration_hours r = 1
                    /\ jit_activity_duration_hours r = 1)
            (calculate_emissions_after_jit
               (merge_emission_factors (calculate_duration fr) aux boiler)))
  /\ (forall parse ais aux boiler e df,
        calculate_duration_try (prepared parse ais) = Raised e df ->
        e = OverflowError
        /\ (exists x y a b,
              x ∈ ais /\ y ∈ ais /\ imo x = imo y
              /\ to_datetime parse (timestamp x) = Datetime a
              /\ to_datetime parse (timestamp y) = Datetime b
              /\ (int64_max < a - b)%Z)
        /\ obs <$> (preprocess_data parse ais).1
           ≡ₚ records (prepared parse ais)
        /\ (forall r : emission,
              r ∈ emissions_data parse ais aux boiler ->
              activity_duration_hours r = 1
              /\ jit_activity_duration_hours r = 1
              /\ exists a b sa sb,
                   ael r = Some a /\ abl r = Some b
                   /\ sfc_ae r = Some sa /\ sfc_ab r = Some sb
                   /\ aux_emissions_after_jit r
                      = a * 1 * sa * 0.867 * 3.667
                   /\ boiler_emissions_after_jit r
                      = b * 1 * sb * 0.867 * 3.667)
        /\ vessel <$> main parse ais aux boiler ≡ₚ unique (imo <$> ais)).
Proof.
  assert (Hgen : forall fr e df,
     calculate_duration_try fr = Raised e df ->
     forall aux boiler (r : emission),
       r ∈ calculate_emissions_after_jit
             (merge_emission_factors (calculate_duration fr) aux boiler) ->
       activity_duration_hours r = 1 /\ jit_activity_duration_hours r = 1).
  { intros fr e df Hraise aux boiler r (m & -> & Hm)%list_elem_of_fmap.
    apply merge_emission_factors_rows in Hm as [Ht _].
    apply (calculate_duration_raised fr e df _ Hraise) in Ht.
    simpl. by rewrite Ht. }
  split.
  - intros fr e df Hraise.
    split; [apply calculate_duration_rows|]. split.
    + apply Forall_forall. intros r.
      by apply (calculate_duration_raised fr e df).
    + intros aux boiler. apply Forall_forall. intros r.
      by apply (Hgen fr e df).
  - intros parse ais aux boiler e df Hraise.
    pose proof (prepared_raised parse ais e df Hraise) as (-> & _ & Hover).
    split; [done|]. split; [|split; [|split]].
    + apply overflow_far_apart in Hover
        as (x' & y' & a & b & Hx & Hy & Himo & Ha & Hb & Hfar).
      apply elem_of_prepared in Hx as (x & Hx & ->).
      apply elem_of_prepared in Hy as (y & Hy & ->).
      simpl in *. by exists x, y, a, b.
    + apply (calculate_duration_rows (prepared parse ais)).
    + intros r Hr.
      destruct (Hgen _ _ _ Hraise aux boiler r Hr) as [Hone Hjit].
      split; [done|]. split; [done|].
      revert Hone Hjit.
      apply list_elem_of_fmap in Hr as (m & -> & Hm).
      apply merge_emission_factors_rows in Hm
        as (Ht & [sa Hsa] & [sb Hsb]).
      apply preprocess_rows in Ht as (x & _ & _ & _ & _ & Ha & Hb).
      intros Hone Hjit.
      exists (fillna 0 (ael x)), (fillna 0 (abl x)), sa, sb.
      simpl in *. rewrite Ha, Hb, Hsa, Hsb, Hjit. done.
    + apply main_vessels.
Qed.

(** On the samples: vessel IMO1 is seen in 1700 and in 2200.  Both
    timestamps convert, their difference overflows; the three records
    get one hour each, and the job returns its two vessels. *)
Lemma calculate_duration_swallows_errors_witness :
  (exists df,
     calculate_duration_try (prepared parse_calendar far_apart_sample)
     = Raised OverflowError df)
  /\ length (emissions_data parse_calendar far_apart_sample
               aux_sample boiler_sample) = 3%nat
  /\ Forall (fun r : emission =>
               activity_duration_hours r = 1
               /\ jit_activity_duration_hours r = 1)
       (emissions_data parse_calendar far_apart_sample
          aux_sample boiler_sample)
  /\ length (main parse_calendar far_apart_sample aux_sample boiler_sample)
     = 2%nat.
Proof.
  assert (Hraise : exists df,
            calculate_duration_try (prepared parse_calendar far_apart_sample)
            = Raised OverflowError df)
    by (eexists; reflexivity).
  split; [exact Hraise|]. destruct Hraise as [df Hraise].
  destruct calculate_duration_swallows_errors as [_ Hjob].
  destruct (Hjob parse_calendar far_apart_sample aux_sample boiler_sample
              OverflowError df Hraise)
    as (_ & _ & _ & Hhour & Hvessels).
  split; [reflexivity|]. split.
  - apply Forall_forall. intros r Hr.
    destruct (Hhour r Hr) as (H1 & H2 & _). done.
  - rewrite <- (length_fmap vessel), Hvessels. reflexivity.
Defined.

(** Claim C9, as the code has it.  With [ael] = 10, [sfc_ae] = 2 and a
    JIT duration of 3 hours the auxiliary emissions are
    10 * 3 * 2 * 0.867 * 3.667 = 190.75734 grams, which contribute
    0.00019075734 tonnes, about 0.00019. *)
Theorem example_aux_emissions (r : merged) (a s : Q) :
  ael r = Some a -> sfc_ae r = Some s -> a == 10 -> s == 2 ->
  jit_activity_duration_hours (emission_of r) == 3 ->
  aux_emissions_after_jit (emission_of r) == 10 * 3 * 2 * 0.867 * 3.667
  /\ aux_emissions_after_jit (emission_of r) == 190.75734
  /\ aux_emissions_after_jit (emission_of r) / 1000000 == 0.00019075734
  /\ 0.00019 <= aux_emissions_after_jit (emission_of r) / 1000000
  /\ aux_emissions_after_jit (emission_of r) / 1000000 < 0.000191.
Proof.
  intros Ha Hs Ea Es Ej. simpl in *. rewrite Ha, Hs. simpl.
  assert (E : a * clip_upper 3 (activity_duration_hours r) * s
                * 0.867 * 3.667 == 190.75734)
    by (rewrite Ea, Es, Ej; reflexivity).
  rewrite E. repeat split; try reflexivity; try discriminate.
Qed.

Lemma example_aux_emissions_witness :
  aux_emissions_after_jit (emission_of imo1_row) == 190.75734
  /\ aux_emissions_after_jit (emission_of imo1_row) / 1000000
     == 0.00019075734.
Proof.
  destruct (example_aux_emissions imo1_row 10 2) as (_ & H1 & H2 & _);
    try reflexivity.
  split; [exact H1|exact H2].
Defined.

(** The figure the specification prints for this example, 190.97...
    grams, is not what the formula gives. *)
Lemma example_aux_emissions_not_190_97 :
  ael imo1_row = Some 10 /\ sfc_ae imo1_row = Some 2
  /\ jit_activity_duration_hours (emission_of imo1_row) = 3
  /\ ~ (190.97 <= aux_emissions_after_jit (emission_of imo1_row)
        /\ aux_emissions_after_jit (emission_of imo1_row) < 190.98).
Proof.
  repeat split; try reflexivity.
  intros [H _]. vm_compute in H. by apply H.
Qed.

End JobB.

Section JobC.
Import Pandas PandasFacts AncSavings AncSavingsFacts CutFacts Samples.

(** Where the before (resp. after) value of a savings row comes from:
    the value of a row of that input table for the same vessel, a
    missing cell read as 0, or 0 when the table has no such row. *)
Lemma savings_row_sources (before_jit after_jit : list aggregate)
    (s : saving) :
  s ∈ savings_table before_jit after_jit ->
  ((exists x, x ∈ before_jit /\ imo x = vessel s
              /\ anc_before_jit s = fillna 0 (value x))
   \/ ((vessel s ∉ imo <$> before_jit) /\ anc_before_jit s = 0))
  /\ ((exists y, y ∈ after_jit /\ imo y = vessel s
                 /\ anc_after_jit s = fillna 0 (value y))
      \/ ((vessel s ∉ imo <$> after_jit) /\ anc_after_jit s = 0)).
Proof.
  intros (ob & oa & Hin & ->)%elem_of_savings_table. simpl.
  apply elem_of_merge_outer in Hin
    as [(l & -> & Hk & Hin)|(-> & r & -> & Hk & Hr & Hnot)]; simpl.
  - apply elem_of_merge_left in Hin as [Hl Hm]. split; [left; eauto|].
    destruct oa as [r|]; simpl.
    + destruct Hm as [Hr Heq]. left. exists r. by rewrite Hk, Heq.
    + right. split; [|done].
      intros (y & Heq & Hy)%list_elem_of_fmap.
      eapply (filter_nil_not_elem_of _ _ y); [exact Hm| |exact Hy].
      simpl. congruence.
  - split; [right|left; eauto]. split; [|done]. by rewrite Hk.
Qed.

(** Claim C2.  In Job C every vessel present in the before-JIT or in the
    after-JIT table has an output row (the outer join keeps a vessel
    that only one table has); in every output row the savings are
    exactly the before value minus the after value, each of the two
    being the table's value for the vessel with a missing value
    replaced by 0; a vessel present only in the before table gets
    [anc_after_jit] = 0 and savings equal to [anc_before_jit]. *)
Theorem savings_are_differences (before_jit after_jit : list aggregate) :
  (forall k, k ∈ imo <$> before_jit \/ k ∈ imo <$> after_jit ->
     exists s, s ∈ savings_table before_jit after_jit /\ vessel s = k)
  /\ (forall s, s ∈ savings_table before_jit after_jit ->
        anc_savings_after_jit s = anc_before_jit s - anc_after_jit s
        /\ ((exists x, x ∈ before_jit /\ imo x = vessel s
                       /\ anc_before_jit s = fillna 0 (value x))
            \/ ((vessel s ∉ imo <$> before_jit) /\ anc_before_jit s = 0))
        /\ ((exists y, y ∈ after_jit /\ imo y = vessel s
                       /\ anc_after_jit s = fillna 0 (value y))
            \/ ((vessel s ∉ imo <$> after_jit) /\ anc_after_jit s = 0)))
  /\ (forall x, x ∈ before_jit -> imo x ∉ imo <$> after_jit ->
        exists s, s ∈ savings_table before_jit after_jit
          /\ vessel s = imo x
          /\ anc_before_jit s = fillna 0 (value x)
          /\ anc_after_jit s = 0
          /\ anc_savings_after_jit s == anc_before_jit s).
Proof.
  split; [|split].
  - intros k Hk.
    apply (merge_outer_covers string_le imo imo) in Hk.
    rewrite <- savings_table_vessels in Hk.
    apply list_elem_of_fmap in Hk as (s & -> & Hs). eauto.
  - intros s Hs. split; [|by apply savings_row_sources].
    apply elem_of_savings_table in Hs as (ob & oa & _ & ->). done.
  - intros x Hx Hnot.
    eexists {| vessel := imo x; anc_before_jit := _; anc_after_jit := _;
               anc_savings_after_jit := _; savings_range := _ |}.
    split.
    + apply elem_of_savings_table. exists (Some x), None. simpl.
      split; [|reflexivity].
      apply elem_of_merge_outer. left. exists x. repeat split.
      apply elem_of_merge_left. split; [done|].
      apply filter_none. intros y Hy Heq. apply Hnot.
      rewrite <- Heq. by apply list_elem_of_fmap_2.
    + simpl. repeat split. unfold Qminus. 
      change (- 0) with 0. apply Qplus_0_r.
Qed.

(** On the samples: vessel B, which only the before table has. *)
Lemma savings_are_differences_witness :
  exists s, s ∈ savings_table before_sample after_sample
    /\ vessel s = "B"%string
    /\ anc_before_jit s = 5
    /\ anc_after_jit s = 0
    /\ anc_savings_after_jit s == 5.
Proof.
  destruct (savings_are_differences before_sample after_sample)
    as (_ & _ & Honly).
  destruct (Honly {| imo := "B"; value := Some 5 |})
    as (s & Hs & Hv & Hb & Ha & Hd).
  - unfold before_sample. apply list_elem_of_here.
  - apply (bool_decide_unpack _). by vm_compute.
  - exists s. simpl in *. rewrite Hb in Hd. by repeat split.
Defined.

(** Claim C10.  In Job C's bucketing exactly the savings of at most
    -0.001 are labelled "Negative"; savings strictly between -0.001 and
    0 are labelled "Zero". *)
Theorem small_negative_savings_are_zero :
  (forall x, cut savings_bins savings_labels x = Some "Negative"%string
             <-> x <= -0.001)
  /\ (forall x, -0.001 < x -> x < 0 ->
        cut savings_bins savings_labels x = Some "Zero"%string)
  /\ (forall before_jit after_jit s,
        s ∈ savings_table before_jit after_jit ->
        (savings_range s = Some "Negative"%string
         <-> anc_savings_after_jit s <= -0.001)
        /\ (-0.001 < anc_savings_after_jit s -> anc_savings_after_jit s < 0 ->
            savings_range s = Some "Zero"%string)).
Proof.
  split; [exact savings_range_negative|].
  assert (Hzero : forall x, -0.001 < x -> x < 0 ->
            cut savings_bins savings_labels x = Some "Zero"%string).
  { intros x Hlo Hhi. apply savings_range_zero. split; [done|lra]. }
  split; [exact Hzero|].
  intros b a s (ob & oa & _ & ->)%elem_of_savings_table. simpl.
  split; [apply savings_range_negative|apply Hzero].
Qed.

(** On the samples: vessel A saves 1 - 1.0005 = -0.0005 tonnes, a
    negative amount that lands in "Zero". *)
Lemma small_negative_savings_are_zero_witness :
  exists s, s ∈ savings_table before_sample after_sample
    /\ vessel s = "A"%string
    /\ anc_savings_after_jit s < 0
    /\ savings_range s = Some "Zero"%string.
Proof.
  destruct small_negative_savings_are_zero as (_ & _ & Hjob).
  destruct (savings_table before_sample after_sample) as [|s rest] eqn:E;
    [vm_compute in E; discriminate E|].
  exists s.
  assert (Hs : s ∈ savings_table before_sample after_sample)
    by (rewrite E; apply list_elem_of_here).
  destruct (Hjob _ _ s Hs) as [_ Hzero].
  split; [apply list_elem_of_here|].
  vm_compute in E. injection E as <- _.
  split; [reflexivity|]. split; [reflexivity|].
  apply Hzero; reflexivity.
Defined.

End JobC.

Section Vessels.
Import Pandas PandasFacts CutFacts Samples.
Import AncBeforeJit AncSavings AncAfterJit.

Lemma one_row_of_perm {A K : Type} `{EqDecision K} (key : A -> K)
    (l : list A) (keys : list K) (k : K) :
  key <$> l ≡ₚ keys -> NoDup keys -> k ∈ keys ->
  length (filter (fun r => key r = k) l) = 1%nat.
Proof.
  intros Hperm Hnd Hk. apply filter_key_NoDup; by rewrite Hperm.
Qed.

(** Claim C3, as the code has it.  Job B's result has exactly one row
    for every vessel of the AIS table and no other row; a vessel the
    emission records do not mention, or a row without identifier, has
    emissions 0.  Job C's result has exactly one row for every vessel
    that either input table has provided neither input table repeats a
    vessel, with 0 on the side that lacks the vessel.  Job A's table
    keeps one row for every vessel of a table that does not repeat a
    vessel. *)
Theorem one_row_per_vessel :
  (forall parse ais aux boiler k,
     k ∈ AncAfterJit.imo <$> ais ->
     length (filter (fun v => AncAfterJit.vessel v = k)
               (AncAfterJit.main parse ais aux boiler)) = 1%nat)
  /\ (forall parse ais aux boiler v,
        v ∈ AncAfterJit.main parse ais aux boiler ->
        AncAfterJit.vessel v ∈ AncAfterJit.imo <$> ais)
  /\ (forall data all_imos v,
        v ∈ AncAfterJit.aggregate_and_analyze_emissions data all_imos ->
        AncAfterJit.vessel v = None
        \/ (AncAfterJit.vessel v
              ∉ (fun r : AncAfterJit.emission => AncAfterJit.imo r) <$> data) ->
        AncAfterJit.anc_after_jit v = 0)
  /\ (forall before_jit after_jit k,
        NoDup (AncSavings.imo <$> before_jit) ->
        NoDup (AncSavings.imo <$> after_jit) ->
        k ∈ AncSavings.imo <$> before_jit
        \/ k ∈ AncSavings.imo <$> after_jit ->
        length (filter (fun s => AncSavings.vessel s = k)
                  (AncSavings.savings_table before_jit after_jit)) = 1%nat)
  /\ (forall before_jit after_jit s,
        s ∈ AncSavings.savings_table before_jit after_jit ->
        ((AncSavings.vessel s ∉ AncSavings.imo <$> before_jit) ->
         AncSavings.anc_before_jit s = 0)
        /\ ((AncSavings.vessel s ∉ AncSavings.imo <$> after_jit) ->
            AncSavings.anc_after_jit s = 0))
  /\ (forall emissions_df k,
        NoDup (AncBeforeJit.imo <$> emissions_df) ->
        k ∈ AncBeforeJit.imo <$> emissions_df ->
        length (filter (fun r : AncBeforeJit.analysed => AncBeforeJit.imo r = k)
                  (AncBeforeJit.load_and_analyze_data emissions_df)) = 1%nat).
Proof.
  repeat apply conj.
  - intros parse ais aux boiler k Hk.
    apply (one_row_of_perm _ _ (unique (AncAfterJit.imo <$> ais))).
    + apply AncAfterJitFacts.main_vessels.
    + apply NoDup_unique.
    + by apply elem_of_unique.
  - intros parse ais aux boiler v Hv.
    apply (list_elem_of_fmap_2 AncAfterJit.vessel) in Hv.
    rewrite AncAfterJitFacts.main_vessels in Hv.
    by rewrite elem_of_unique in Hv.
  - intros data all_imos v Hv Hno.
    apply AncAfterJitFacts.aggregate_value in Hv.
    destruct (AncAfterJit.vessel v) as [k|]; [|done].
    destruct Hno as [?|Hno]; [done|]. by rewrite decide_False in Hv.
  - intros b a k Hb Ha Hk.
    apply (one_row_of_perm _ _
             ((fun row => row.1.1)
                <$> merge_outer string_le AncSavings.imo AncSavings.imo b a)).
    + apply AncSavingsFacts.savings_table_vessels.
    + by apply AncSavingsFacts.merge_outer_keys_NoDup.
    + by apply AncSavingsFacts.merge_outer_covers.
  - intros b a s Hs.
    destruct (savings_row_sources b a s Hs) as [Hb Ha]. split.
    + intros Hnot. destruct Hb as [(x & Hx & Hk & _)|[_ ?]]; [|done].
      destruct Hnot. rewrite <- Hk. by apply list_elem_of_fmap_2.
    + intros Hnot. destruct Ha as [(y & Hy & Hk & _)|[_ ?]]; [|done].
      destruct Hnot. rewrite <- Hk. by apply list_elem_of_fmap_2.
  - intros df k Hnd Hk.
    apply (one_row_of_perm _ _ (AncBeforeJit.imo <$> df)); try done.
    change (fun r : AncBeforeJit.analysed => AncBeforeJit.imo r)
      with (AncBeforeJit.imo ∘ AncBeforeJit.row).
    by rewrite list_fmap_compose,
         AncBeforeJitFacts.load_and_analyze_data_rows.
Qed.

(** On the samples: Job B has one row for IMO1, which has two
    observations, and Job C one row for vessel A, which both tables
    have. *)
Lemma one_row_per_vessel_witness :
  length (filter (fun v => AncAfterJit.vessel v = Some "IMO1"%string)
            (AncAfterJit.main parse_sample ais_sample
               aux_sample boiler_sample)) = 1%nat
  /\ length (filter (fun s => AncSavings.vessel s = "A"%string)
               (AncSavings.savings_table before_sample after_sample)) = 1%nat.
Proof.
  destruct one_row_per_vessel as (HB & _ & _ & HC & _).
  split.
  - apply HB. apply (bool_decide_unpack _). by vm_compute.
  - apply HC.
    + apply (bool_decide_unpack _). by vm_compute.
    + apply (bool_decide_unpack _). by vm_compute.
    + left. apply (bool_decide_unpack _). by vm_compute.
Defined.

(** Without the proviso the count fails: the join pairs every before
    row of a vessel with every after row of it, so a before table that
    lists vessel A twice gives two output rows for A. *)
Lemma savings_table_repeated_vessel :
  "A"%string ∈ AncSavings.imo <$> repeated_before_sample
  /\ length
       (filter (fun s => AncSavings.vessel s = "A"%string)
          (AncSavings.savings_table repeated_before_sample
             [ {| AncSavings.imo := "A"%string;
                  AncSavings.value := Some 3 |} ]))
     = 2%nat
  /\ length
       (filter (fun s => AncSavings.vessel s = "A"%string)
          (AncSavings.savings_table repeated_before_sample
             [ {| AncSavings.imo := "A"%string;
                  AncSavings.value := Some 3 |} ]))
     <> 1%nat.
Proof.
  split; [apply list_elem_of_here|]. split; [reflexivity|].
  vm_compute. discriminate.
Qed.

(** Claim C5, at the value it fails on.  The edges [0, 0.001, ...] make
    left-open, right-closed bins, so an emission of exactly 0 falls in
    no bin: Job B's and Job A's bucketing leave it unlabelled, although
    the first bin is named "Zero".  Job C's bucketing, whose second bin
    reaches below 0, does label 0 "Zero". *)
Theorem zero_emission_gets_no_range :
  cut AncAfterJit.emission_bins AncAfterJit.emission_labels 0 = None
  /\ cut_cell AncBeforeJit.emission_bins AncBeforeJit.emission_labels (Some 0)
     = None
  /\ (forall data all_imos v,
        v ∈ AncAfterJit.aggregate_and_analyze_emissions data all_imos ->
        AncAfterJit.anc_after_jit v == 0 ->
        AncAfterJit.emission_range v = None)
  /\ (forall emissions_df (r : AncBeforeJit.analysed) q,
        r ∈ AncBeforeJit.load_and_analyze_data emissions_df ->
        AncBeforeJit.anc_before_jit r = Some q -> q == 0 ->
        AncBeforeJit.emission_range r = None)
  /\ cut AncSavings.savings_bins AncSavings.savings_labels 0
     = Some "Zero"%string.
Proof.
  repeat apply conj; try reflexivity.
  - intros data all_imos v Hv Hz.
    unfold AncAfterJit.aggregate_and_analyze_emissions in Hv.
    apply list_elem_of_fmap in Hv as (p & -> & _). simpl in *.
    apply emission_range_nonpositive. lra.
  - intros df r q Hr Hq Hz.
    rewrite (AncBeforeJitFacts.load_and_analyze_data_range df r Hr), Hq.
    apply emission_range_nonpositive. lra.
Qed.

(** On the samples: Job B's row for IMO2, whose fuel has no factor, and
    Job A's row for the vessel reported at 0. *)
Lemma zero_emission_gets_no_range_witness :
  Exists (fun v => AncAfterJit.vessel v = Some "IMO2"%string
                   /\ AncAfterJit.anc_after_jit v == 0
                   /\ AncAfterJit.emission_range v = None)
    (AncAfterJit.main parse_sample ais_sample aux_sample boiler_sample)
  /\ Exists (fun r : AncBeforeJit.analysed =>
               AncBeforeJit.imo r = 9000001%Z
               /\ AncBeforeJit.anc_before_jit r = Some 0
               /\ AncBeforeJit.emission_range r = None)
       (AncBeforeJit.load_and_analyze_data before_report_sample).
Proof.
  destruct zero_emission_gets_no_range as (_ & _ & HB & HA & _).
  split.
  - pose proof (HB (AncAfterJit.emissions_data parse_sample ais_sample
                      aux_sample boiler_sample)
                  (AncAfterJit.preprocess_data parse_sample ais_sample).2)
      as HB'.
    rewrite <- AncAfterJitFacts.main_unfold in HB'.
    destruct (AncAfterJit.main parse_sample ais_sample aux_sample
                boiler_sample) as [|v1 [|v2 rest]] eqn:E;
      try (vm_compute in E; discriminate E).
    apply Exists_cons_tl, Exists_cons_hd.
    assert (Hv : v2 ∈ v1 :: v2 :: rest)
      by apply list_elem_of_further, list_elem_of_here.
    specialize (HB' v2 Hv).
    vm_compute in E. injection E as _ <- _.
    split; [reflexivity|]. split; [reflexivity|]. by apply HB'.
  - pose proof (HA before_report_sample) as HA'.
    destruct (AncBeforeJit.load_and_analyze_data before_report_sample)
      as [|r1 rest] eqn:E; try (vm_compute in E; discriminate E).
    apply Exists_cons_hd.
    assert (Hr : r1 ∈ r1 :: rest) by apply list_elem_of_here.
    specialize (HA' r1 0 Hr).
    vm_compute in E. injection E as <- _.
    split; [reflexivity|]. split; [reflexivity|]. by apply HA'.
Defined.

End Vessels.

Section Signs.
Import Pandas PandasFacts Samples.
Import AncBeforeJit AncSavings AncAfterJit.

(** Claim C7, as the code has it.  A record whose loads, emission
    factors and derived duration are non-negative has non-negative
    auxiliary, boiler and total emissions; hence every aggregate of Job
    B over such records is non-negative, and, the durations Job B
    derives being non-negative, so is every aggregate Job B returns for
    an AIS table and factor tables without negative entries.  Job A
    computes nothing: it hands on the values of the table it loads, row
    by row and unchanged, so its values are non-negative exactly when
    those of the file are.  Job C writes the difference as it is: when
    the after value exceeds the before value the savings are
    negative. *)
Theorem emissions_nonnegative_savings_unclamped :
  (forall m : AncAfterJit.merged,
     (forall a, AncAfterJit.ael m = Some a -> 0 <= a) ->
     (forall b, AncAfterJit.abl m = Some b -> 0 <= b) ->
     (forall s, AncAfterJit.sfc_ae m = Some s -> 0 <= s) ->
     (forall s, AncAfterJit.sfc_ab m = Some s -> 0 <= s) ->
     0 <= AncAfterJit.activity_duration_hours m ->
     0 <= AncAfterJit.aux_emissions_after_jit (AncAfterJit.emission_of m)
     /\ 0 <= AncAfterJit.boiler_emissions_after_jit (AncAfterJit.emission_of m)
     /\ 0 <= AncAfterJit.total_emissions_grams_after_jit
               (AncAfterJit.emission_of m)
     /\ 0 <= AncAfterJit.total_emissions_tonnes_after_jit
               (AncAfterJit.emission_of m))
  /\ (forall (data : list AncAfterJit.merged) all_imos v,
        (forall m : AncAfterJit.merged, m ∈ data ->
           (forall a, AncAfterJit.ael m = Some a -> 0 <= a)
           /\ (forall b, AncAfterJit.abl m = Some b -> 0 <= b)
           /\ (forall s, AncAfterJit.sfc_ae m = Some s -> 0 <= s)
           /\ (forall s, AncAfterJit.sfc_ab m = Some s -> 0 <= s)
           /\ 0 <= AncAfterJit.activity_duration_hours m) ->
        v ∈ AncAfterJit.aggregate_and_analyze_emissions
              (AncAfterJit.calculate_emissions_after_jit data) all_imos ->
        0 <= AncAfterJit.anc_after_jit v)
  /\ (forall parse (ais : list AncAfterJit.activity)
        (aux boiler : list AncAfterJit.factor) v,
        (forall x a, x ∈ ais -> AncAfterJit.ael x = Some a -> 0 <= a) ->
        (forall x b, x ∈ ais -> AncAfterJit.abl x = Some b -> 0 <= b) ->
        (forall f s, f ∈ aux -> AncAfterJit.sfc f = Some s -> 0 <= s) ->
        (forall f s, f ∈ boiler -> AncAfterJit.sfc f = Some s -> 0 <= s) ->
        v ∈ AncAfterJit.main parse ais aux boiler ->
        0 <= AncAfterJit.anc_after_jit v)
  /\ (forall emissions_df,
        AncBeforeJit.row <$> AncBeforeJit.load_and_analyze_data emissions_df
        ≡ₚ emissions_df)
  /\ (forall emissions_df,
        (forall (r : AncBeforeJit.analysed) q,
           r ∈ AncBeforeJit.load_and_analyze_data emissions_df ->
           AncBeforeJit.anc_before_jit r = Some q -> 0 <= q)
        <-> (forall x q, x ∈ emissions_df ->
               AncBeforeJit.anc_before_jit x = Some q -> 0 <= q))
  /\ (forall before_jit after_jit s,
        s ∈ AncSavings.savings_table before_jit after_jit ->
        AncSavings.anc_savings_after_jit s
        = AncSavings.anc_before_jit s - AncSavings.anc_after_jit s
        /\ (AncSavings.anc_before_jit s < AncSavings.anc_after_jit s ->
            AncSavings.anc_savings_after_jit s < 0)).
Proof.
  repeat apply conj.
  - exact AncAfterJitFacts.emission_of_nonneg.
  - intros data all_imos v Hdata.
    apply AncAfterJitFacts.aggregate_nonneg.
    intros r (m & -> & Hm)%list_elem_of_fmap.
    destruct (Hdata m Hm) as (Ha & Hb & Hsa & Hsb & Hd).
    by apply AncAfterJitFacts.emission_of_nonneg.
  - intros parse ais aux boiler v.
    apply AncAfterJitFacts.main_nonneg.
  - exact AncBeforeJitFacts.load_and_analyze_data_rows.
  - intros emissions_df. split.
    + intros Hout x q Hx Hq.
      rewrite <- (AncBeforeJitFacts.load_and_analyze_data_rows emissions_df)
        in Hx.
      apply list_elem_of_fmap in Hx as (r & -> & Hr). by apply (Hout r).
    + intros Hin r q Hr Hq.
      apply (list_elem_of_fmap_2 AncBeforeJit.row) in Hr.
      rewrite AncBeforeJitFacts.load_and_analyze_data_rows in Hr.
      by apply (Hin (AncBeforeJit.row r) q).
  - intros b a s (ob & oa & _ & ->)%AncSavingsFacts.elem_of_savings_table.
    simpl. split; [done|]. intros Hlt. lra.
Qed.

(** On the samples: the worked example's record has non-negative
    emissions; Job B's aggregates for the sample tables are
    non-negative; Job A hands on the two values of its sample, which
    are non-negative; and vessel C, which only the after table has, is
    written with savings of -2. *)
Lemma emissions_nonnegative_savings_unclamped_witness :
  0 <= AncAfterJit.total_emissions_tonnes_after_jit
         (AncAfterJit.emission_of imo1_row)
  /\ Forall (fun v => 0 <= AncAfterJit.anc_after_jit v)
       (AncAfterJit.main parse_sample ais_sample aux_sample boiler_sample)
  /\ (forall (r : AncBeforeJit.analysed) q,
        r ∈ AncBeforeJit.load_and_analyze_data before_report_sample ->
        AncBeforeJit.anc_before_jit r = Some q -> 0 <= q)
  /\ Exists (fun s => AncSavings.vessel s = "C"%string
                      /\ AncSavings.anc_savings_after_jit s == -2
                      /\ AncSavings.anc_savings_after_jit s < 0)
       (AncSavings.savings_table before_sample after_sample).
Proof.
  destruct emissions_nonnegative_savings_unclamped
    as (Hrec & _ & HB & _ & HA & HC).
  split; [|split; [|split]].
  - apply (Hrec imo1_row); simpl;
      try (intros ? [= <-]); discriminate.
  - apply Forall_forall. intros v.
    apply (HB parse_sample ais_sample aux_sample boiler_sample v).
    + intros x a Hx. unfold ais_sample in Hx.
      repeat (apply elem_of_cons in Hx as [->|Hx]);
        try (by apply elem_of_nil in Hx); intros [= <-]; discriminate.
    + intros x a Hx. unfold ais_sample in Hx.
      repeat (apply elem_of_cons in Hx as [->|Hx]);
        try (by apply elem_of_nil in Hx); intros [= <-]; discriminate.
    + intros f s Hf. unfold aux_sample in Hf.
      apply list_elem_of_singleton in Hf as ->. intros [= <-]. discriminate.
    + intros f s Hf. unfold boiler_sample in Hf.
      apply list_elem_of_singleton in Hf as ->. intros [= <-]. discriminate.
  - apply (HA before_report_sample).
    intros x q Hx. unfold before_report_sample in Hx.
    repeat (apply elem_of_cons in Hx as [->|Hx]);
      try (by apply elem_of_nil in Hx); intros [= <-]; discriminate.
  - pose proof (HC before_sample after_sample) as HC'.
    destruct (AncSavings.savings_table before_sample after_sample)
      as [|s1 [|s2 [|s3 rest]]] eqn:E;
      try (vm_compute in E; discriminate E).
    do 2 apply Exists_cons_tl. apply Exists_cons_hd.
    assert (Hs : s3 ∈ s1 :: s2 :: s3 :: rest)
      by (do 2 apply list_elem_of_further; apply list_elem_of_here).
    destruct (HC' s3 Hs) as [_ Hneg].
    vm_compute in E. injection E as _ _ <- _.
    split; [reflexivity|]. split; [reflexivity|].
    apply Hneg. reflexivity.
Defined.

(** Job A's values are not non-negative whatever the file holds: from
    the file with the one row [4,-1] the job returns, and writes, the
    value -1. *)
Lemma before_jit_keeps_negative_value :
  AncBeforeJit.load_and_analyze_data negative_before_sample
  = [ {| AncBeforeJit.row :=
           {| AncBeforeJit.imo := 4;
              AncBeforeJit.anc_before_jit := Some (-1) |};
         AncBeforeJit.emission_range := None |} ]
  /\ ~ (forall (r : AncBeforeJit.analysed) q,
          r ∈ AncBeforeJit.load_and_analyze_data negative_before_sample ->
          AncBeforeJit.anc_before_jit r = Some q -> 0 <= q).
Proof.
  split; [reflexivity|].
  intros Hall.
  specialize (Hall {| AncBeforeJit.row :=
                        {| AncBeforeJit.imo := 4;
                           AncBeforeJit.anc_before_jit := Some (-1) |};
                      AncBeforeJit.emission_range := None |} (-1)).
  assert (Hneg : 0 <= -1); [|by apply Hneg].
  apply Hall; [|reflexivity].
  apply list_elem_of_here.
Qed.

End Signs.

Section Scripts.
Import Script ScriptFacts.

(** Claim C6.  Run as a script, anc_after_jit.py and anc_before_jit.py
    reach a guard that reads the global [name], which neither the
    module nor the builtins define (the module has [__name__]): the run
    ends there with [NameError] and the entry function, [main] resp.
    [load_and_analyze_data], is never called. *)
Theorem entry_guard_raises_NameError (file : string) :
  raised (anc_after_jit_py (script_globals file)) = Some (NameError "name")
  /\ calls (anc_after_jit_py (script_globals file)) = []
  /\ raised (anc_before_jit_py (script_globals file))
     = Some (NameError "name")
  /\ calls (anc_before_jit_py (script_globals file)) = [].
Proof.
  pose proof (script_globals_name file) as Hname.
  destruct (anc_after_jit_py_raises _ Hname) as [? ?].
  destruct (anc_before_jit_py_raises _ Hname) as [? ?].
  done.
Qed.

End Scripts.


(** * Further properties of the jobs *)

(** ** Paging and counting *)

Module ConsoleFacts.
Import Pandas PandasFacts Console.

Lemma elem_of_range_step (stop step i : nat) :
  (0 < step)%nat ->
  i ∈ range_step stop step
  <-> exists j, i = (j * step)%nat /\ (j * step < stop)%nat.
Proof.
  intros Hstep. unfold range_step. rewrite list_elem_of_fmap.
  assert (Hq : forall j, (j < (stop + step - 1) / step)%nat
                         <-> (j * step < stop)%nat).
  { intros j.
    pose proof (Nat.div_mod (stop + step - 1) step ltac:(lia)) as Hdm.
    pose proof (Nat.mod_upper_bound (stop + step - 1) step ltac:(lia)) as Hr.
    split; intros H; nia. }
  split.
  - intros (j & -> & Hj). exists j. split; [done|].
    apply Hq. by apply elem_of_seq in Hj as [_ ?].
  - intros (j & -> & Hj). exists j. split; [done|].
    apply elem_of_seq. split; [lia|]. apply Hq in Hj. lia.
Qed.

Lemma blocks_rebuild {A : Type} (size k : nat) (rows : list A) :
  (length rows <= k * size)%nat ->
  seq 0 k ≫= (fun j => take size (drop (j * size) rows)) = rows.
Proof.
  revert rows. induction k as [|k IH]; intros rows Hlen.
  - destruct rows; [done|simpl in Hlen; lia].
  - rewrite <- cons_seq, bind_cons, <- fmap_S_seq, list_fmap_bind.
    change (drop (0 * size) rows) with rows.
    transitivity (take size rows ++ drop size rows);
      [|apply take_drop].
    f_equal. etransitivity; [|apply (IH (drop size rows))].
    + apply list_bind_ext; [|done]. intros j. simpl.
      by rewrite drop_drop, (Nat.add_comm size).
    + rewrite length_drop. lia.
Qed.

Lemma range_step_covers (stop step : nat) :
  (0 < step)%nat -> (stop <= (stop + step - 1) / step * step)%nat.
Proof.
  intros Hstep.
  pose proof (Nat.div_mod (stop + step - 1) step ltac:(lia)) as Hdm.
  pose proof (Nat.mod_upper_bound (stop + step - 1) step ltac:(lia)) as Hr.
  nia.
Qed.

(** Both loops show the table once through. *)
Lemma iloc_blocks_rebuild {A : Type} (rows : list A) :
  range_step (length rows) 50 ≫= (fun i => iloc i 50 rows) = rows.
Proof.
  unfold range_step. rewrite list_fmap_bind.
  apply (blocks_rebuild 50). apply range_step_covers. lia.
Qed.

Lemma bind_bind {A B C : Type} (f : A -> list B) (g : B -> list C)
    (l : list A) :
  (l ≫= f) ≫= g = l ≫= (fun x => f x ≫= g).
Proof.
  induction l as [|x l IH]; [done|].
  by rewrite !bind_cons, bind_app, IH.
Qed.

Lemma show_in_blocks_shown {A : Type} (rows : list A) :
  show_in_blocks rows ≫= shown = rows.
Proof.
  unfold show_in_blocks. rewrite bind_bind.
  etransitivity; [|apply (iloc_blocks_rebuild rows)].
  apply list_bind_ext; [|done]. intros i. simpl.
  destruct (_ && _); simpl; by rewrite app_nil_r.
Qed.

Lemma show_with_pauses_shown {A : Type} (rows : list A) :
  show_with_pauses rows ≫= shown = rows.
Proof.
  unfold show_with_pauses. rewrite bind_bind.
  etransitivity; [|apply (iloc_blocks_rebuild rows)].
  apply list_bind_ext; [|done]. intros i. simpl.
  destruct (_ <? _)%nat; simpl; by rewrite app_nil_r.
Qed.

Lemma iloc_length {A : Type} (i size : nat) (rows : list A) :
  length (iloc i size rows) = Nat.min size (length rows - i).
Proof. unfold iloc. by rewrite length_take, length_drop. Qed.

Lemma elem_of_show_in_blocks {A : Type} (rows : list A) (e : event A) :
  e ∈ show_in_blocks rows <->
  exists j, (j * 50 < length rows)%nat
    /\ (e = Header (j * 50 + 1) (Nat.min (j * 50 + 50) (length rows))
        \/ e = Show (iloc (j * 50) 50 rows)
        \/ (e = Input "Press Enter to continue showing more IMOs..."
            /\ (0 < j)%nat /\ (j mod 10 = 0)%nat)).
Proof.
  unfold show_in_blocks. rewrite list_elem_of_bind.
  assert (Hmod : forall j, ((j * 50) mod 500 = 0 <-> j mod 10 = 0)%nat).
  { intros j. replace 500%nat with (10 * 50)%nat by done.
    rewrite Nat.Div0.mul_mod_distr_r. lia. }
  split.
  - intros (i & He & Hi).
    apply elem_of_range_step in Hi as (j & -> & Hj); [|lia].
    exists j. split; [done|].
    rewrite !elem_of_app, !elem_of_cons in He.
    destruct He as [[->|[->|He]]|He]; auto.
    + by apply elem_of_nil in He.
    + destruct (0 <? j * 50)%nat eqn:E1; [|by apply elem_of_nil in He].
      destruct (_ =? 0)%nat eqn:E2; [|by apply elem_of_nil in He].
      simpl in He. apply list_elem_of_singleton in He.
      apply Nat.ltb_lt in E1. apply Nat.eqb_eq, Hmod in E2.
      right. right. repeat split; [done|lia|done].
  - intros (j & Hj & He). exists (j * 50)%nat. split.
    + rewrite !elem_of_app, !elem_of_cons.
      destruct He as [->|[->|(-> & Hpos & Hten)]]; auto.
      right. apply Hmod in Hten.
      apply Nat.eqb_eq in Hten. rewrite Hten.
      assert (Hlt : (0 <? j * 50)%nat = true) by (apply Nat.ltb_lt; lia).
      rewrite Hlt. apply list_elem_of_here.
    + apply elem_of_range_step; [lia|]. eauto.
Qed.

Lemma elem_of_show_with_pauses {A : Type} (rows : list A) (e : event A) :
  e ∈ show_with_pauses rows <->
  exists j, (j * 50 < length rows)%nat
    /\ (e = Show (iloc (j * 50) 50 rows)
        \/ (e = Input "Press Enter to see next 50 IMOs..."
            /\ (j * 50 + 50 < length rows)%nat)).
Proof.
  unfold show_with_pauses. rewrite list_elem_of_bind. split.
  - intros (i & He & Hi).
    apply elem_of_range_step in Hi as (j & -> & Hj); [|lia].
    exists j. split; [done|].
    apply elem_of_cons in He as [->|He]; auto.
    destruct (_ <? _)%nat eqn:E; [|by apply elem_of_nil in He].
    apply list_elem_of_singleton in He. apply Nat.ltb_lt in E. auto.
  - intros (j & Hj & He). exists (j * 50)%nat. split.
    + destruct He as [->|(-> & Hlt)]; [apply list_elem_of_here|].
      apply Nat.ltb_lt in Hlt. rewrite Hlt.
      apply list_elem_of_further, list_elem_of_here.
    + apply elem_of_range_step; [lia|]. eauto.
Qed.

Lemma bind_one {A B : Type} (f : A -> list B) (x : A) : [x] ≫= f = f x.
Proof. simpl. apply app_nil_r. Qed.

(** Counting the pauses of Job C block by block. *)
Lemma show_with_pauses_inputs {A : Type} (n k : nat) (f : nat -> list A) :
  (k <= (n + 50 - 1) / 50)%nat ->
  length
    (filter (fun e => is_input e)
       (seq 0 k ≫= (fun j =>
          Show (f j)
          :: (if (j * 50 + 50 <? n)%nat
              then [Input "Press Enter to see next 50 IMOs..."]
              else []))))
  = Nat.min k ((n + 50 - 1) / 50 - 1).
Proof.
  pose proof (Nat.div_mod (n + 50 - 1) 50 ltac:(lia)) as Hdm.
  pose proof (Nat.mod_upper_bound (n + 50 - 1) 50 ltac:(lia)) as Hr.
  remember ((n + 50 - 1) / 50)%nat as q eqn:Eq.
  remember ((n + 50 - 1) mod 50)%nat as r eqn:Er.
  clear Eq Er.
  induction k as [|k IH]; intros Hk; [done|].
  rewrite seq_S, bind_app, filter_app, length_app, IH by lia.
  rewrite bind_one.
  rewrite filter_cons_False by (simpl; auto).
  destruct ((0 + k) * 50 + 50 <? n)%nat eqn:E.
  - apply Nat.ltb_lt in E. rewrite filter_cons_True by done.
    rewrite filter_nil. simpl length. lia.
  - apply Nat.ltb_ge in E. rewrite filter_nil. simpl length. lia.
Qed.

End ConsoleFacts.

(** ** More about sums, orders and joins *)

Module TableMoreFacts.
Import Pandas PandasFacts.

Lemma sum_cons (x : Q) (l : list Q) : sum (x :: l) = x + sum l.
Proof. done. Qed.

Lemma sum_app (l1 l2 : list Q) : sum (l1 ++ l2) == sum l1 + sum l2.
Proof.
  induction l1 as [|x l1 IH]; [unfold sum; simpl; lra|].
  rewrite <- app_comm_cons, !sum_cons, IH. lra.
Qed.

Lemma sum_perm (l1 l2 : list Q) : l1 ≡ₚ l2 -> sum l1 == sum l2.
Proof.
  induction 1 as [|x l1 l2 _ IH|x y l|l1 l2 l3 _ IH1 _ IH2].
  - reflexivity.
  - rewrite !sum_cons, IH. reflexivity.
  - rewrite !sum_cons. lra.
  - by rewrite IH1.
Qed.

Lemma filter_same {A} (P1 P2 : A -> Prop) `{forall x, Decision (P1 x)}
    `{forall x, Decision (P2 x)} (l : list A) :
  (forall x, x ∈ l -> P1 x <-> P2 x) -> filter P1 l = filter P2 l.
Proof.
  induction l as [|x l IH]; intros Hiff; [done|].
  rewrite !filter_cons.
  assert (Hx : P1 x <-> P2 x) by (apply Hiff; apply list_elem_of_here).
  rewrite IH by (intros y Hy; apply Hiff; by apply list_elem_of_further).
  destruct (decide (P1 x)), (decide (P2 x)); tauto || done.
Qed.

Lemma filter_all {A} (P : A -> Prop) `{forall x, Decision (P x)}
    (l : list A) :
  (forall x, x ∈ l -> P x) -> filter P l = l.
Proof.
  induction l as [|x l IH]; intros Hl; [done|].
  rewrite filter_cons_True by (apply Hl, list_elem_of_here).
  f_equal. apply IH. intros y Hy. by apply Hl, list_elem_of_further.
Qed.

Section SumByKey.
Context {K R : Type} `{EqDecision K} (key : R -> K) (val : R -> Q).

(** Summing group by group, over distinct keys, sums the rows whose
    key is one of them. *)
Lemma sum_by_key (ks : list K) (rows : list R) :
  NoDup ks ->
  sum ((fun k => sum (val <$> filter (fun r => key r = k) rows)) <$> ks)
  == sum (val <$> filter (fun r => key r ∈ ks) rows).
Proof.
  intros Hnd. induction rows as [|r rows IH].
  - simpl. clear Hnd. induction ks as [|k ks IHk]; [done|].
    rewrite fmap_cons, sum_cons, IHk. done.
  - rewrite filter_cons.
    assert (Hstep :
      sum ((fun k => sum (val <$> filter (fun r => key r = k) (r :: rows)))
             <$> ks)
      == (if decide (key r ∈ ks) then val r else 0)
         + sum ((fun k => sum (val <$> filter (fun r => key r = k) rows))
                  <$> ks)).
    { clear IH. induction ks as [|k ks IHk].
      - rewrite decide_False by (apply not_elem_of_nil).
        simpl. unfold sum. simpl. lra.
      - apply NoDup_cons in Hnd as [Hk Hnd].
        rewrite !fmap_cons, !sum_cons, IHk by done.
        rewrite filter_cons.
        destruct (decide (key r = k)) as [Heq|Hne];
          destruct (decide (key r ∈ ks)) as [Hin|Hnin];
          destruct (decide (key r ∈ k :: ks)) as [Hin'|Hnin'];
          rewrite ?fmap_cons, ?sum_cons; try lra; exfalso; set_solver. }
    rewrite Hstep, IH.
    destruct (decide (key r ∈ ks)); [rewrite fmap_cons, sum_cons|]; lra.
Qed.
End SumByKey.

(** The grouped sums add up to the sum over the rows that have a key. *)
Lemma groupby_sum_total {R : Type} (key : R -> option string) (val : R -> Q)
    (rows : list R) :
  sum ((groupby_sum key val rows).*2)
  == sum (val <$> filter (fun r => is_Some (key r)) rows).
Proof.
  pose proof (NoDup_groupby_sum key val rows) as Hnd.
  pose proof (elem_of_groupby_sum_keys key val rows) as Hkeys.
  rewrite groupby_sum_keys in Hnd, Hkeys.
  unfold groupby_sum. rewrite <- list_fmap_compose.
  set (ks := merge_sort string_le (unique (omap key rows))) in *.
  transitivity
    (sum ((fun k => sum (val <$> filter (fun r => key r = k) rows))
            <$> (Some <$> ks))).
  { rewrite <- list_fmap_compose. done. }
  rewrite sum_by_key by (by apply (NoDup_fmap_2 Some)).
  erewrite filter_same; [reflexivity|].
  intros r Hr. split.
  - intros (k & -> & _)%list_elem_of_fmap. done.
  - intros [k Hk]. rewrite Hk. apply list_elem_of_fmap_2.
    apply Hkeys. eauto.
Qed.

(** Against a right table with distinct keys, the left join looks each
    left row up. *)
Lemma merge_left_lookup {K L R : Type} `{EqDecision K}
    (kl : L -> K) (kr : R -> K) (left : list L) (right : list R) :
  NoDup (kr <$> right) ->
  merge_left kl kr left right
  = (fun l => (l, head (filter (fun r => kr r = kl l) right))) <$> left.
Proof.
  intros Hnd. unfold merge_left.
  induction left as [|l left IH]; [done|].
  rewrite bind_cons, fmap_cons, IH.
  by destruct (filter_key_at_most_one kr right (kl l) Hnd) as [->|[r ->]].
Qed.

(** [unique] keeps one missing key; [nunique] does not count it. *)
Lemma unique_length_nunique {K : Type} `{EqDecision K}
    (col : list (option K)) :
  length (unique col)
  = (Console.nunique col + if decide (None ∈ col) then 1 else 0)%nat.
Proof.
  unfold Console.nunique.
  assert (Hperm :
    unique col
    ≡ₚ (Some <$> unique (omap id col))
       ++ (if decide (None ∈ col) then [None] else [])).
  { apply NoDup_Permutation.
    - apply NoDup_unique.
    - apply NoDup_app. split; [|split].
      + apply (NoDup_fmap_2 Some), NoDup_unique.
      + intros x (k & -> & _)%list_elem_of_fmap.
        destruct (decide _); [|apply not_elem_of_nil].
        by intros ?%list_elem_of_singleton.
      + destruct (decide _); [apply NoDup_singleton|apply NoDup_nil_2].
    - intros x. rewrite elem_of_unique, elem_of_app, list_elem_of_fmap.
      split.
      + intros Hx. destruct x as [k|].
        * left. exists k. split; [done|].
          apply elem_of_unique, list_elem_of_omap. by exists (Some k).
        * right. rewrite decide_True by done. apply list_elem_of_here.
      + intros [(k & -> & Hk)|Hx].
        * apply elem_of_unique, list_elem_of_omap in Hk as (o & Ho & Heq).
          simpl in Heq. by subst o.
        * destruct (decide (None ∈ col)) as [Hin|];
            [|by apply elem_of_nil in Hx].
          by apply list_elem_of_singleton in Hx as ->. }
  rewrite Hperm, length_app, length_fmap.
  by destruct (decide _).
Qed.

End TableMoreFacts.

(** ** Buckets and their counts *)

Module BucketFacts.
Import Pandas PandasFacts TableMoreFacts Console ConsoleFacts CutFacts.

Ltac bucket_cases :=
  unfold cut; simpl;
  repeat (match goal with
          | |- context [Qlt_bool ?a ?x] =>
              let E := fresh "E" in
              destruct (Qlt_bool a x) eqn:E;
              [apply Qlt_bool_iff in E | apply Qlt_bool_false in E]; simpl
          | |- context [Qle_bool ?x ?a] =>
              let E := fresh "E" in
              destruct (Qle_bool x a) eqn:E;
              [apply Qle_bool_iff in E
              |assert (a < x)
                 by (apply Qnot_le_lt; intros ?%Qle_bool_iff; congruence);
               clear E]; simpl
          end);
  first [done | exfalso; lra].

Lemma emission_cut_intervals (x : Q) :
  cut AncAfterJit.emission_bins AncAfterJit.emission_labels x
  = (if Qle_bool x 0 then None
     else if Qle_bool x 0.001 then Some "Zero"
     else if Qle_bool x 1 then Some "0-1"
     else if Qle_bool x 10 then Some "1-10"
     else if Qle_bool x 50 then Some "10-50"
     else if Qle_bool x 100 then Some "50-100"
     else Some "100+")%string.
Proof. bucket_cases. Qed.

Lemma savings_cut_intervals (x : Q) :
  cut AncSavings.savings_bins AncSavings.savings_labels x
  = Some (if Qle_bool x (-0.001) then "Negative"
          else if Qle_bool x 0.001 then "Zero"
          else if Qle_bool x 1 then "0-1"
          else if Qle_bool x 10 then "1-10"
          else if Qle_bool x 50 then "10-50"
          else if Qle_bool x 100 then "50-100"
          else "100+")%string.
Proof. bucket_cases. Qed.

Lemma value_counts_step (categories : list string)
    (x : option string) (col : list (option string)) :
  NoDup categories ->
  sum_list ((value_counts categories (x :: col)).*2)
  = ((match x with
      | Some c => if decide (c ∈ categories) then 1 else 0
      | None => 0
      end) + sum_list ((value_counts categories col).*2))%nat.
Proof.
  unfold value_counts. rewrite <- !list_fmap_compose.
  induction categories as [|c cs IH]; intros Hnd.
  - simpl. by destruct x.
  - apply NoDup_cons in Hnd as [Hc Hnd].
    rewrite !fmap_cons. simpl sum_list_with. rewrite IH by done.
    simpl. rewrite filter_cons.
    destruct x as [c0|].
    + destruct (decide (Some c0 = Some c)) as [Heq|Hne];
        destruct (decide (c0 ∈ cs)) as [Hin|Hnin];
        destruct (decide (c0 ∈ c :: cs)) as [Hin'|Hnin'];
        simpl; try lia; exfalso; try (injection Heq as ->); set_solver.
    + rewrite decide_False by done. lia.
Qed.

(** The counts of a distribution add up to the rows that carry a
    category. *)
Lemma value_counts_total (categories : list string)
    (col : list (option string)) :
  NoDup categories ->
  (forall c, Some c ∈ col -> c ∈ categories) ->
  sum_list ((value_counts categories col).*2)
  = length (filter (fun x => is_Some x) col).
Proof.
  intros Hnd. induction col as [|x col IH]; intros Hcat.
  - unfold value_counts. rewrite <- list_fmap_compose.
    rewrite (list_fmap_ext _ (fun _ => 0%nat)) by done.
    clear. by induction categories as [|c cs IH].
  - rewrite value_counts_step by done.
    rewrite IH by (intros c Hc; by apply Hcat, list_elem_of_further).
    rewrite filter_cons. destruct x as [c|].
    + rewrite decide_True by (apply Hcat, list_elem_of_here).
      rewrite decide_True by done. simpl. lia.
    + rewrite decide_False by (by intros [? ?]). lia.
Qed.

Lemma emission_cut_labelled (xs : list Q) :
  length (filter (fun c => is_Some c)
            (cut AncAfterJit.emission_bins AncAfterJit.emission_labels
               <$> xs))
  = length (filter (fun x => Qlt_bool 0 x) xs).
Proof.
  induction xs as [|x xs IH]; [done|].
  rewrite fmap_cons, !filter_cons.
  pose proof (emission_cut_intervals x) as Hx.
  destruct (Qle_bool x 0) eqn:E.
  - apply Qle_bool_iff in E. rewrite Hx.
    rewrite decide_False by (by intros [? ?]).
    rewrite decide_False; [done|].
    intros H%Is_true_true%Qlt_bool_iff. lra.
  - assert (0 < x)
      by (apply Qnot_le_lt; intros ?%Qle_bool_iff; congruence).
    rewrite (decide_True (P := Is_true (Qlt_bool 0 x)))
      by (by apply Is_true_true, Qlt_bool_iff).
    rewrite decide_True; [simpl; by rewrite IH|].
    rewrite Hx. repeat (destruct (Qle_bool _ _); [done|]). done.
Qed.

Lemma emission_cut_label (x : Q) (c : string) :
  cut AncAfterJit.emission_bins AncAfterJit.emission_labels x = Some c ->
  c ∈ AncAfterJit.emission_labels.
Proof.
  rewrite emission_cut_intervals. unfold AncAfterJit.emission_labels.
  repeat (destruct (Qle_bool _ _);
          [first [done | intros [= <-]; set_solver]|]).
  intros [= <-]. set_solver.
Qed.

End BucketFacts.

Module SumFacts.
Import Pandas PandasFacts TableMoreFacts.

Lemma sum_fmap_ext {A} (f g : A -> Q) (l : list A) :
  (forall x, x ∈ l -> f x == g x) -> sum (f <$> l) == sum (g <$> l).
Proof.
  induction l as [|x l IH]; intros Hfg; [reflexivity|].
  rewrite !fmap_cons, !sum_cons.
  rewrite (Hfg x) by apply list_elem_of_here.
  rewrite IH; [reflexivity|].
  intros y Hy. by apply Hfg, list_elem_of_further.
Qed.

Lemma sum_fmap_sub {A} (f g : A -> Q) (l : list A) :
  sum ((fun x => f x - g x) <$> l) == sum (f <$> l) - sum (g <$> l).
Proof.
  induction l as [|x l IH]; [unfold sum; simpl; lra|].
  rewrite !fmap_cons, !sum_cons, IH. lra.
Qed.

Lemma sum_fmap_perm {A} (f : A -> Q) (l1 l2 : list A) :
  l1 ≡ₚ l2 -> sum (f <$> l1) == sum (f <$> l2).
Proof. intros Hp. apply sum_perm. by rewrite Hp. Qed.

End SumFacts.


(** ** Job B, further *)

Section JobBMore.
Import Pandas PandasFacts TableMoreFacts Console ConsoleFacts.
Import AncAfterJit AncAfterJitFacts AncAfterJitReport Samples.

(** [calculate_duration], whichever of its three paths it takes, hands
    back the records it was given, each once, and no duration it sets
    is negative or above 24 hours. *)
Theorem calculate_duration_keeps_records (fr : frame) :
  obs <$> calculate_duration fr ≡ₚ records fr
  /\ length (calculate_duration fr) = length (records fr)
  /\ Forall (fun r : timed =>
               0 <= activity_duration_hours r
               /\ activity_duration_hours r <= 24)
       (calculate_duration fr).
Proof.
  split; [apply calculate_duration_rows|]. split.
  - rewrite <- (length_fmap obs). by rewrite calculate_duration_rows.
  - apply Forall_forall. intros r Hr. split.
    + by apply (calculate_duration_nonneg fr).
    + by apply (calculate_duration_le_24 fr).
Qed.

Lemma groupby_diff_prev (seen df : list activity) d1 q d2 :
  groupby_diff seen df = d1 ++ q :: d2 ->
  q.2 = timedelta (timestamp q.1)
          (List.find (same_vessel (imo q.1)) (rev (d1.*1) ++ seen)).
Proof.
  revert seen d1. induction df as [|r df IH]; intros seen d1; simpl.
  - intros Heq. by destruct d1.
  - destruct d1 as [|x d1]; simpl; intros Heq.
    + by inversion Heq.
    + inversion Heq as [[Hx Hrest]]. subst x.
      rewrite (IH _ _ Hrest). simpl. by rewrite <- app_assoc.
Qed.

Lemma find_same_vessel_skip k (skipped rest : list activity) :
  (forall x, x ∈ skipped -> imo x <> k) ->
  List.find (same_vessel k) (skipped ++ rest)
  = List.find (same_vessel k) rest.
Proof.
  intros Hskip. induction skipped as [|x skipped IH]; [done|].
  simpl.
  assert (Hx : same_vessel k x = false).
  { unfold same_vessel. destruct k; [|done].
    apply bool_decide_eq_false, Hskip, list_elem_of_here. }
  rewrite Hx. apply IH. intros y Hy. by apply Hskip, list_elem_of_further.
Qed.

Lemma find_same_vessel_here k (p : activity) (rest : list activity) :
  imo p = Some k ->
  List.find (same_vessel (Some k)) (p :: rest) = Some p.
Proof.
  intros Hp. simpl. unfold same_vessel.
  by rewrite bool_decide_eq_true_2.
Qed.

(** On a frame with a timestamp column that holds no text, and in
    which no two instants of one vessel are more than 2^63 - 1
    nanoseconds (some 292 years) apart, so that no difference
    overflows, a record whose vessel has an earlier record in the
    returned frame, both with an instant, gets the time since the
    latest such record, in hours and capped at 24; that time is not
    negative. *)
Theorem duration_is_gap_to_previous (fr : frame)
    (b1 : list timed) (p : timed) (b2 : list timed) (r : timed)
    (after : list timed) (k : string) (a b : Z) :
  has_timestamp fr = true ->
  Forall (fun x => datetimelike (timestamp x)) (records fr) ->
  (forall x y a b,
     x ∈ records fr -> y ∈ records fr -> imo x = imo y ->
     timestamp x = Datetime a -> timestamp y = Datetime b ->
     (a - b <= int64_max)%Z) ->
  calculate_duration fr = b1 ++ p :: b2 ++ r :: after ->
  imo r = Some k -> imo p = Some k ->
  (forall x : timed, x ∈ b2 -> imo x <> Some k) ->
  timestamp r = Datetime a -> timestamp p = Datetime b ->
  activity_duration_hours r = clip_upper 24 (hours (a - b))
  /\ (b <= a)%Z.
Proof.
  intros Hcol Hdt Hrange Heq Hr Hp Hb2 Ha Hb.
  assert (Hnonneg : 0 <= activity_duration_hours r).
  { apply (calculate_duration_nonneg fr). rewrite Heq.
    rewrite elem_of_app, elem_of_cons, elem_of_app, elem_of_cons. auto. }
  revert Heq. unfold calculate_duration, calculate_duration_try.
  rewrite Hcol.
  assert (Hall : forallb datetimelike (timestamp <$> sorted_records fr)
                 = true).
  { apply forallb_forall. intros c Hc.
    apply list_elem_of_In, list_elem_of_fmap in Hc as (x & -> & Hx).
    apply elem_of_lexsort in Hx.
    rewrite Forall_forall in Hdt. by apply Is_true_true, Hdt. }
  rewrite Hall, (no_overflow_in_range fr Hrange), <- list_fmap_compose.
  replace (b1 ++ p :: b2 ++ r :: after)
    with ((b1 ++ p :: b2) ++ r :: after) by (by rewrite <- app_assoc).
  intros Heq.
  apply fmap_app_inv in Heq as (d1 & d2' & Hd1 & Hd2 & Hdiff).
  destruct d2' as [|q d2]; [done|].
  rewrite fmap_cons in Hd2. injection Hd2 as Hq _.
  apply groupby_diff_prev in Hdiff as Hprev.
  rewrite app_nil_r in Hprev.
  assert (Hobs : d1.*1 = obs <$> (b1 ++ p :: b2)).
  { rewrite Hd1, <- list_fmap_compose. symmetry. by apply list_fmap_ext. }
  assert (Hq1 : q.1 = obs r) by (by rewrite Hq).
  rewrite Hobs, Hq1, fmap_app, fmap_cons, rev_app_distr in Hprev.
  simpl in Hprev. rewrite <- app_assoc in Hprev. simpl in Hprev.
  rewrite Hr, find_same_vessel_skip, find_same_vessel_here in Hprev;
    [|done|].
  - unfold timedelta in Hprev. simpl in Hprev. rewrite Ha, Hb in Hprev.
    assert (Hd : activity_duration_hours r = clip_upper 24 (hours (a - b))).
    { rewrite Hq. simpl. by rewrite Hprev. }
    split; [done|].
    destruct (Z_lt_le_dec a b) as [Hlt|Hle]; [|lia].
    exfalso. rewrite Hd in Hnonneg.
    assert (Hneg : hours (a - b) < 0).
    { unfold hours. apply Qlt_shift_div_r; [lra|].
      apply Qlt_shift_div_r; [lra|].
      unfold Qlt. simpl. lia. }
    unfold clip_upper in Hnonneg.
    destruct (Qlt_bool 24 (hours (a - b))) eqn:E; [|lra].
    apply Qlt_bool_iff in E. lra.
  - intros x Hx. apply list_elem_of_In, in_rev, list_elem_of_In in Hx.
    apply list_elem_of_fmap in Hx as (y & -> & Hy). by apply Hb2.
Qed.

Lemma duration_is_gap_to_previous_witness :
  match calculate_duration parsed_frame with
  | [p; r; _] =>
      imo r = Some "IMO1"%string /\ imo p = Some "IMO1"%string
      /\ activity_duration_hours r
         = clip_upper 24 (hours (18000000000000 - 0))
      /\ activity_duration_hours r == 5
  | _ => False
  end.
Proof.
  pose proof (duration_is_gap_to_previous parsed_frame []) as H.
  destruct (calculate_duration parsed_frame)
    as [|p [|r [|x [|y rest]]]] eqn:E;
    try (vm_compute in E; discriminate E).
  specialize (H p [] r [x] "IMO1"%string 18000000000000%Z 0%Z).
  pose proof E as E'. vm_compute in E'. injection E' as <- <- <-.
  destruct H as [Hd _]; try reflexivity.
  - repeat constructor.
  - intros x y a b Hx Hy _ Ha Hb. unfold parsed_frame in Hx, Hy.
    simpl in Hx, Hy. unfold int64_max.
    repeat (apply elem_of_cons in Hx as [->|Hx]);
      try (by apply elem_of_nil in Hx);
      repeat (apply elem_of_cons in Hy as [->|Hy]);
      try (by apply elem_of_nil in Hy);
      simpl in Ha, Hb; try discriminate;
      injection Ha as <-; injection Hb as <-; lia.
  - intros y Hy. by apply elem_of_nil in Hy.
  - split; [reflexivity|]. split; [reflexivity|].
    split; [exact Hd|]. rewrite Hd. reflexivity.
Defined.

(** [calculate_duration] on a frame with a timestamp column returns the
    records ordered by vessel, then by timestamp, a missing value last
    in either, and the sort is stable: whatever path is taken, the
    records that share vessel and timestamp come back in the order
    they were given.  Of two records of a vessel at the same instant
    it is thus the one given first that gets the time since the
    vessel's previous record. *)
Theorem calculate_duration_sort_is_stable (fr : frame) :
  (has_timestamp fr = true ->
   StronglySorted
     (fun x y : activity =>
        imo_timestamp_le (imo x, timestamp x) (imo y, timestamp y))
     (obs <$> calculate_duration fr))
  /\ (forall k : option string * timestamp_cell,
        filter (fun r : activity => (imo r, timestamp r) = k)
          (obs <$> calculate_duration fr)
        = filter (fun r : activity => (imo r, timestamp r) = k)
            (records fr)).
Proof.
  rewrite calculate_duration_order. split.
  - intros ->. apply (lexsort_sorted imo_timestamp_le).
  - intros k. destruct (has_timestamp fr); [|done].
    apply (lexsort_stable imo_timestamp_le
             (fun r : activity => (imo r, timestamp r))).
Qed.

(** On the samples: the two records at the same instant, given with
    loads 2 and 3 in this order, come back in this order after the
    earlier record, and get two hours and no time. *)
Lemma calculate_duration_sort_is_stable_witness :
  ael <$> filter (fun r : activity =>
                    (imo r, timestamp r)
                    = (Some "IMO1"%string, Datetime 7200000000000))
            (obs <$> calculate_duration tied_frame)
  = [Some 2; Some 3]
  /\ match calculate_duration tied_frame with
     | [r1; r2; r3] =>
         ael r1 = Some 1 /\ activity_duration_hours r1 == 1
         /\ ael r2 = Some 2 /\ activity_duration_hours r2 == 2
         /\ ael r3 = Some 3 /\ activity_duration_hours r3 == 0
     | _ => False
     end.
Proof.
  destruct (calculate_duration_sort_is_stable tied_frame) as [_ Hstable].
  split.
  - rewrite Hstable. reflexivity.
  - vm_compute. repeat split; reflexivity.
Defined.

(** When neither factor table lists a fuel category twice,
    [merge_emission_factors] keeps the table row for row and in order;
    whatever the tables hold, it loses no record. *)
Theorem merge_emission_factors_keeps_rows (data : list timed)
    (aux boiler : list factor) :
  (NoDup (factor_fuel_category <$> aux) ->
   NoDup (factor_fuel_category <$> boiler) ->
   act <$> merge_emission_factors data aux boiler = data)
  /\ (length data <= length (merge_emission_factors data aux boiler))%nat.
Proof.
  split.
  - intros Haux Hboiler. unfold merge_emission_factors.
    rewrite <- list_fmap_compose.
    rewrite (list_fmap_ext _ (fst ∘ fst)) by done.
    by rewrite list_fmap_compose, !merge_left_fst.
  - unfold merge_emission_factors. rewrite length_fmap.
    assert (Hgrow : forall {L R : Type} (kl : L -> option string)
                      (kr : R -> option string) (l : list L) (r : list R),
               (length l <= length (merge_left kl kr l r))%nat).
    { intros L R kl kr l r. unfold merge_left.
      induction l as [|x l IH]; [done|].
      rewrite bind_cons, length_app, length_cons.
      assert (1 <= length
                (match filter (fun y => kr y = kl x) r with
                 | [] => [(x, None)]
                 | ms => (fun y => (x, Some y)) <$> ms
                 end))%nat
        by (destruct (filter _ r); simpl; lia).
      lia. }
    etransitivity; [apply Hgrow|apply Hgrow].
Qed.

Lemma merge_emission_factors_keeps_rows_witness :
  act <$> merge_emission_factors (calculate_duration parsed_frame)
            aux_sample boiler_sample
  = calculate_duration parsed_frame.
Proof.
  apply (merge_emission_factors_keeps_rows
           (calculate_duration parsed_frame) aux_sample boiler_sample).
  - apply (bool_decide_unpack _). by vm_compute.
  - apply (bool_decide_unpack _). by vm_compute.
Defined.

(** A factor table that lists a fuel category twice doubles the
    records of that category, and with them their emissions. *)
Example merge_emission_factors_repeated_factor :
  length (merge_emission_factors (calculate_duration parsed_frame)
            (aux_sample ++ aux_sample) boiler_sample) = 5%nat.
Proof. reflexivity. Qed.

Lemma merge_emission_factors_sfc (data : list timed) aux boiler (m : merged) :
  m ∈ merge_emission_factors data aux boiler ->
  ((fuel_category m ∉ factor_fuel_category <$> aux) -> sfc_ae m = Some 0)
  /\ ((fuel_category m ∉ factor_fuel_category <$> boiler) ->
      sfc_ab m = Some 0).
Proof.
  unfold merge_emission_factors.
  intros ([[t fa] fb] & -> & Hin)%list_elem_of_fmap. simpl.
  apply elem_of_merge_left in Hin as [Hin Hfb].
  apply elem_of_merge_left in Hin as [_ Hfa]. simpl in *.
  split; intros Hnot.
  - destruct fa as [fa|]; [|done]. destruct Hfa as [Hfa Hk].
    destruct Hnot. rewrite <- Hk. by apply list_elem_of_fmap_2.
  - destruct fb as [fb|]; [|done]. destruct Hfb as [Hfb Hk].
    destruct Hnot. rewrite <- Hk. by apply list_elem_of_fmap_2.
Qed.

(** A record whose fuel category the auxiliary (resp. boiler) factor
    table does not list gets the factor 0 and so no auxiliary (resp.
    boiler) emissions. *)
Theorem unknown_fuel_category_emits_nothing parse ais aux boiler
    (r : emission) :
  r ∈ emissions_data parse ais aux boiler ->
  ((fuel_category r ∉ factor_fuel_category <$> aux) ->
   sfc_ae r = Some 0 /\ aux_emissions_after_jit r == 0)
  /\ ((fuel_category r ∉ factor_fuel_category <$> boiler) ->
      sfc_ab r = Some 0 /\ boiler_emissions_after_jit r == 0).
Proof.
  unfold emissions_data, calculate_emissions_after_jit.
  intros (m & -> & Hm)%list_elem_of_fmap.
  apply merge_emission_factors_sfc in Hm as [Hae Hab]. simpl.
  split; intros Hnot.
  - rewrite (Hae Hnot). split; [done|].
    unfold emissions_of. destruct (ael m); lra.
  - rewrite (Hab Hnot). split; [done|].
    unfold emissions_of. destruct (abl m); lra.
Qed.

Lemma unknown_fuel_category_emits_nothing_witness :
  Exists (fun r : emission =>
            fuel_category r = Some "B"%string
            /\ aux_emissions_after_jit r == 0
            /\ boiler_emissions_after_jit r == 0)
    (emissions_data parse_sample ais_sample aux_sample boiler_sample).
Proof.
  pose proof (unknown_fuel_category_emits_nothing parse_sample ais_sample
                aux_sample boiler_sample) as H.
  destruct (emissions_data parse_sample ais_sample aux_sample boiler_sample)
    as [|r1 [|r2 [|r3 rest]]] eqn:E;
    try (vm_compute in E; discriminate E).
  do 2 apply Exists_cons_tl. apply Exists_cons_hd.
  destruct (H r3) as [Hae Hab].
  { do 2 apply list_elem_of_further. apply list_elem_of_here. }
  vm_compute in E. injection E as _ _ <- _.
  split; [reflexivity|]. split.
  - apply Hae. apply (bool_decide_unpack _). by vm_compute.
  - apply Hab. apply (bool_decide_unpack _). by vm_compute.
Defined.

(** With a non-negative load and factor, the cap never raises a
    record's emissions above what the derived duration would give, and
    bounds them by three hours' worth. *)
Theorem jit_cap_bounds_emissions (m : merged) (a s : Q) :
  ael m = Some a -> sfc_ae m = Some s -> 0 <= a -> 0 <= s ->
  aux_emissions_after_jit (emission_of m)
  <= a * activity_duration_hours m * s * 0.867 * 3.667
  /\ aux_emissions_after_jit (emission_of m) <= a * 3 * s * 0.867 * 3.667.
Proof.
  intros Ha Hs Hapos Hspos. simpl. rewrite Ha, Hs. simpl.
  set (d := activity_duration_hours m).
  assert (Hd : clip_upper 3 d <= d).
  { unfold clip_upper. destruct (Qlt_bool 3 d) eqn:E; [|lra].
    apply Qlt_bool_iff in E. lra. }
  pose proof (clip_upper_le 3 d) as H3.
  assert (Hk : 0 <= a * s) by (by apply Qmult_le_0_compat).
  assert (H1 : 0 <= (a * s) * (d - clip_upper 3 d))
    by (apply Qmult_le_0_compat; [done|lra]).
  assert (H2 : 0 <= (a * s) * (3 - clip_upper 3 d))
    by (apply Qmult_le_0_compat; [done|lra]).
  split; lra.
Qed.

Lemma jit_cap_bounds_emissions_witness :
  aux_emissions_after_jit (emission_of imo1_row)
  <= 10 * 5 * 2 * 0.867 * 3.667
  /\ aux_emissions_after_jit (emission_of imo1_row)
     <= 10 * 3 * 2 * 0.867 * 3.667.
Proof.
  apply (jit_cap_bounds_emissions imo1_row 10 2);
    first [reflexivity | discriminate].
Defined.

(** The table Job B returns and writes is in ascending order of vessel
    identifier, a row without identifier last. *)
Theorem aggregate_sorted_by_vessel (data : list emission)
    (all_imos : list (option string)) :
  StronglySorted (fun v w => key_le (vessel v) (vessel w))
    (aggregate_and_analyze_emissions data all_imos).
Proof.
  unfold aggregate_and_analyze_emissions.
  apply (StronglySorted_fmap _ (by_key key_le fst)); [done|].
  apply sort_values_sorted; apply _.
Qed.

Lemma aggregate_values (data : list emission)
    (all_imos : list (option string)) :
  anc_after_jit <$> aggregate_and_analyze_emissions data all_imos
  ≡ₚ (fun k =>
        fillna 0
          (snd <$> head (filter (fun g : string * Q => Some g.1 = k)
                           (groupby_sum (fun r : emission => imo r)
                              total_emissions_tonnes_after_jit data))))
       <$> all_imos.
Proof.
  unfold aggregate_and_analyze_emissions.
  rewrite <- list_fmap_compose.
  rewrite (list_fmap_ext _ snd) by done.
  rewrite sort_values_perm, <- list_fmap_compose.
  rewrite merge_left_lookup by apply groupby_keys_NoDup.
  by rewrite <- list_fmap_compose.
Qed.

(** The aggregation loses nothing when the vessels asked for are
    distinct and include every vessel of the records. *)
Lemma aggregate_total_of_covering (data : list emission)
    (all_imos : list (option string)) :
  NoDup all_imos ->
  (forall r : emission, r ∈ data -> imo r ∈ all_imos) ->
  total_emissions (aggregate_and_analyze_emissions data all_imos)
  == sum (total_emissions_tonnes_after_jit
            <$> filter (fun r : emission => is_Some (imo r)) data).
Proof.
  intros Hnd Hcover. unfold total_emissions.
  rewrite (sum_perm _ _ (aggregate_values data all_imos)).
  set (groups := groupby_sum (fun r : emission => imo r)
                   total_emissions_tonnes_after_jit data).
  rewrite <- (groupby_sum_total (fun r : emission => imo r)).
  fold groups.
  transitivity
    (sum ((fun k => sum (snd <$> filter (fun g : string * Q => Some g.1 = k)
                                   groups)) <$> all_imos)).
  { clear Hnd Hcover. induction all_imos as [|k ks IH]; [done|].
    rewrite !fmap_cons, !sum_cons, IH. cbv beta.
    assert (E :
      fillna 0
        (snd <$> head (filter (fun g : string * Q => Some g.1 = k) groups))
      == sum (snd <$> filter (fun g : string * Q => Some g.1 = k) groups)).
    { destruct (filter_key_at_most_one (fun g : string * Q => Some g.1)
                  groups k (groupby_keys_NoDup _ _ _)) as [->|[g ->]];
        unfold sum; simpl; lra. }
    lra. }
  rewrite (sum_by_key (fun g : string * Q => Some g.1) snd) by done.
  rewrite filter_all; [done|].
  intros g Hg.
  apply (list_elem_of_fmap_2 fst) in Hg.
  apply elem_of_groupby_sum_keys in Hg as (r & Hr & Hk).
  rewrite <- Hk. by apply Hcover.
Qed.

(** Nothing is lost between the records and the table Job B returns:
    the "Total emissions" of the summary is the sum of the tonnes of
    all records that name a vessel, however the records are spread
    over vessels; a record without IMO is left out of it. *)
Theorem aggregate_conserves_total parse ais aux boiler :
  total_emissions (main parse ais aux boiler)
  == sum (total_emissions_tonnes_after_jit
            <$> filter (fun r : emission => is_Some (imo r))
                  (emissions_data parse ais aux boiler)).
Proof.
  rewrite main_unfold. apply aggregate_total_of_covering.
  - rewrite preprocess_all_imos. apply NoDup_unique.
  - intros r Hr. rewrite preprocess_all_imos. apply elem_of_unique.
    apply (emissions_data_imos parse ais aux boiler).
    by apply (list_elem_of_fmap_2 (fun r : emission => imo r)).
Qed.

(** The "Total unique IMOs" of the summary is the number of records
    [load_data] reports as unique IMOs, plus one when some record has
    no IMO: [unique] keeps the missing identifier that [nunique] leaves
    out.  It never exceeds the number of records. *)
Theorem unique_imos_counted_twice_agree parse ais aux boiler :
  total_unique_imos (main parse ais aux boiler)
  = (found_unique_imos ais
     + if decide (None ∈ imo <$> ais) then 1 else 0)%nat
  /\ (total_unique_imos (main parse ais aux boiler)
      <= loaded_records ais)%nat.
Proof.
  unfold total_unique_imos, found_unique_imos, loaded_records.
  rewrite <- (length_fmap vessel), main_vessels.
  split; [apply unique_length_nunique|].
  rewrite <- (length_fmap imo ais).
  generalize (imo <$> ais). intros l. unfold unique.
  generalize (@nil (option string)).
  induction l as [|x l IH]; intros seen; simpl; [done|].
  destruct (decide (x ∈ seen)); [specialize (IH seen)|
                                 specialize (IH (x :: seen))];
    simpl; lia.
Qed.

Lemma count_where_split (col : list Q) :
  (count_where (fun x => Qlt_bool 0 x) col
   + count_where (fun x => Qeq_bool x 0) col
   + count_where (fun x => Qlt_bool x 0) col)%nat
  = length col.
Proof.
  unfold count_where. induction col as [|x col IH]; [done|].
  rewrite !filter_cons. simpl length. rewrite <- IH. clear IH.
  destruct (Qlt_bool 0 x) eqn:E1, (Qeq_bool x 0) eqn:E2,
    (Qlt_bool x 0) eqn:E3;
    repeat match goal with
      | H : Qlt_bool _ _ = true |- _ => apply Qlt_bool_iff in H
      | H : Qlt_bool _ _ = false |- _ => apply Qlt_bool_false in H
      | H : Qeq_bool _ _ = true |- _ => apply Qeq_bool_iff in H
      | H : Qeq_bool _ _ = false |- _ => apply Qeq_bool_neq in H
      end;
    simpl; try lia; exfalso; lra.
Qed.

(** For an AIS table with non-negative loads and factor tables with
    non-negative factors, the summary's two counts, vessels with
    non-zero and vessels with zero emissions, add up to the number of
    vessels. *)
Theorem summary_counts_add_up parse (ais : list activity)
    (aux boiler : list factor) :
  (forall x a, x ∈ ais -> ael x = Some a -> 0 <= a) ->
  (forall x b, x ∈ ais -> abl x = Some b -> 0 <= b) ->
  (forall f s, f ∈ aux -> sfc f = Some s -> 0 <= s) ->
  (forall f s, f ∈ boiler -> sfc f = Some s -> 0 <= s) ->
  (imos_with_nonzero_emissions (main parse ais aux boiler)
   + imos_with_zero_emissions (main parse ais aux boiler))%nat
  = total_unique_imos (main parse ais aux boiler).
Proof.
  intros Ha Hb Hsa Hsb.
  unfold imos_with_nonzero_emissions, imos_with_zero_emissions,
    total_unique_imos.
  rewrite <- (length_fmap anc_after_jit (main parse ais aux boiler)).
  rewrite <- count_where_split.
  assert (Hnone :
    count_where (fun x => Qlt_bool x 0)
      (anc_after_jit <$> main parse ais aux boiler) = 0%nat).
  { unfold count_where. apply length_zero_iff_nil, filter_none.
    intros x (v & -> & Hv)%list_elem_of_fmap Hneg.
    apply Is_true_true, Qlt_bool_iff in Hneg.
    pose proof (main_nonneg parse ais aux boiler v Ha Hb Hsa Hsb Hv).
    lra. }
  rewrite Hnone. lia.
Qed.

Lemma summary_counts_add_up_witness :
  (imos_with_nonzero_emissions
     (main parse_sample ais_sample aux_sample boiler_sample)
   + imos_with_zero_emissions
       (main parse_sample ais_sample aux_sample boiler_sample))%nat
  = 2%nat.
Proof.
  rewrite (summary_counts_add_up parse_sample ais_sample
             aux_sample boiler_sample).
  - reflexivity.
  - intros x a Hx. unfold ais_sample in Hx.
    repeat (apply elem_of_cons in Hx as [->|Hx]);
      try (by apply elem_of_nil in Hx); intros [= <-]; discriminate.
  - intros x a Hx. unfold ais_sample in Hx.
    repeat (apply elem_of_cons in Hx as [->|Hx]);
      try (by apply elem_of_nil in Hx); intros [= <-]; discriminate.
  - intros f s Hf. unfold aux_sample in Hf.
    apply list_elem_of_singleton in Hf as ->. intros [= <-]. discriminate.
  - intros f s Hf. unfold boiler_sample in Hf.
    apply list_elem_of_singleton in Hf as ->. intros [= <-]. discriminate.
Defined.

End JobBMore.

Section Ranges.
Import Pandas PandasFacts TableMoreFacts Console ConsoleFacts BucketFacts.

(** The emission buckets of Jobs A and B are the intervals (0, 0.001],
    (0.001, 1], (1, 10], (10, 50], (50, 100] and (100, ∞): an edge
    belongs to the bucket below it, and a value that is not positive
    gets no bucket. *)
Theorem emission_range_intervals (x : Q) :
  cut AncAfterJit.emission_bins AncAfterJit.emission_labels x
  = (if Qle_bool x 0 then None
     else if Qle_bool x 0.001 then Some "Zero"
     else if Qle_bool x 1 then Some "0-1"
     else if Qle_bool x 10 then Some "1-10"
     else if Qle_bool x 50 then Some "10-50"
     else if Qle_bool x 100 then Some "50-100"
     else Some "100+")%string
  /\ cut AncBeforeJit.emission_bins AncBeforeJit.emission_labels x
     = cut AncAfterJit.emission_bins AncAfterJit.emission_labels x.
Proof. split; [apply emission_cut_intervals|reflexivity]. Qed.

(** The savings buckets of Job C are (-∞, -0.001], (-0.001, 0.001],
    (0.001, 1], (1, 10], (10, 50], (50, 100] and (100, ∞): every
    value gets one, so every row of the savings table is counted in
    the distribution, whose counts add up to the number of rows. *)
Theorem savings_range_intervals :
  (forall x : Q,
     cut AncSavings.savings_bins AncSavings.savings_labels x
     = Some (if Qle_bool x (-0.001) then "Negative"
             else if Qle_bool x 0.001 then "Zero"
             else if Qle_bool x 1 then "0-1"
             else if Qle_bool x 10 then "1-10"
             else if Qle_bool x 50 then "10-50"
             else if Qle_bool x 100 then "50-100"
             else "100+")%string)
  /\ (forall before_jit after_jit,
        sum_list
          ((AncSavingsReport.range_dist
              (AncSavings.savings_table before_jit after_jit)).*2)
        = length (AncSavings.savings_table before_jit after_jit)).
Proof.
  split; [exact savings_cut_intervals|].
  intros b a. unfold AncSavingsReport.range_dist.
  set (merged := AncSavings.savings_table b a).
  assert (Hlab : forall s, s ∈ merged ->
            exists c, AncSavings.savings_range s = Some c
                      /\ c ∈ AncSavings.savings_labels).
  { intros s (ob & oa & _ & ->)%AncSavingsFacts.elem_of_savings_table.
    simpl. rewrite savings_cut_intervals. eexists. split; [done|].
    unfold AncSavings.savings_labels.
    repeat (destruct (Qle_bool _ _); [set_solver|]). set_solver. }
  rewrite value_counts_total.
  - rewrite filter_all, length_fmap; [done|].
    intros x (s & -> & Hs)%list_elem_of_fmap.
    destruct (Hlab s Hs) as (c & -> & _). done.
  - apply (bool_decide_unpack _). by vm_compute.
  - intros c (s & Hc & Hs)%list_elem_of_fmap.
    destruct (Hlab s Hs) as (c' & Hc' & Hin). congruence.
Qed.

(** In Job B the counts of the emission ranges add up to the number of
    vessels with positive emissions: a vessel at zero is in no range,
    not in "Zero". *)
Theorem emission_ranges_leave_out_zero
    (data : list AncAfterJit.emission) (all_imos : list (option string)) :
  sum_list
    ((AncAfterJitReport.emission_ranges_distribution
        (AncAfterJit.aggregate_and_analyze_emissions data all_imos)).*2)
  = AncAfterJitReport.imos_with_nonzero_emissions
      (AncAfterJit.aggregate_and_analyze_emissions data all_imos).
Proof.
  unfold AncAfterJitReport.emission_ranges_distribution,
    AncAfterJitReport.imos_with_nonzero_emissions, count_where.
  unfold AncAfterJit.aggregate_and_analyze_emissions.
  set (rows := sort_values _ _ _).
  rewrite <- !list_fmap_compose.
  rewrite (list_fmap_ext _
             (cut AncAfterJit.emission_bins AncAfterJit.emission_labels
                ∘ snd) rows) by done.
  rewrite (list_fmap_ext _ snd rows) by done.
  rewrite list_fmap_compose, value_counts_total.
  - apply emission_cut_labelled.
  - apply (bool_decide_unpack _). by vm_compute.
  - intros c (x & Hc & _)%list_elem_of_fmap.
    by apply (emission_cut_label x).
Qed.

(** The loop of Jobs A and B shows every row once, in table order, in
    blocks of at most 50 rows, none empty, and waits for the operator
    exactly when the table has more than 500 rows. *)
Theorem blocks_show_every_row {A : Type} (rows : list A) :
  show_in_blocks rows ≫= shown = rows
  /\ (forall b, Show b ∈ show_in_blocks rows ->
        (0 < length b <= 50)%nat)
  /\ ((exists p, Input p ∈ show_in_blocks rows)
      <-> (500 < length rows)%nat).
Proof.
  split; [apply show_in_blocks_shown|]. split.
  - intros b (j & Hj & He)%elem_of_show_in_blocks.
    destruct He as [?|[[= ->]|[? _]]]; try done.
    rewrite iloc_length. lia.
  - split.
    + intros (p & (j & Hj & He)%elem_of_show_in_blocks).
      destruct He as [?|[?|(_ & Hpos & Hten)]]; try done.
      assert (10 <= j)%nat; [|lia].
      destruct (Nat.lt_ge_cases j 10) as [Hlt|]; [|done].
      rewrite Nat.mod_small in Hten by done. lia.
    + intros Hlen. eexists. apply elem_of_show_in_blocks.
      exists 10%nat. split; [lia|]. right. right.
      split; [reflexivity|]. split; [lia|done].
Qed.

(** The loop of Job C shows every row once, in table order, in blocks
    of at most 50 rows, and waits for the operator once after every
    block but the last. *)
Theorem savings_list_pauses_between_blocks {A : Type} (rows : list A) :
  show_with_pauses rows ≫= shown = rows
  /\ (forall b, Show b ∈ show_with_pauses rows ->
        (0 < length b <= 50)%nat)
  /\ length (filter (fun e => is_input e) (show_with_pauses rows))
     = ((length rows + 49) / 50 - 1)%nat
  /\ ((exists p, Input p ∈ show_with_pauses rows)
      <-> (50 < length rows)%nat).
Proof.
  split; [apply show_with_pauses_shown|]. split; [|split].
  - intros b (j & Hj & He)%elem_of_show_with_pauses.
    destruct He as [[= ->]|[? _]]; try done.
    rewrite iloc_length. lia.
  - unfold show_with_pauses, range_step. rewrite list_fmap_bind.
    etransitivity;
      [apply (show_with_pauses_inputs (length rows)
                ((length rows + 50 - 1) / 50)
                (fun j => iloc (j * 50) 50 rows)); done|].
    replace (length rows + 50 - 1)%nat with (length rows + 49)%nat by lia.
    lia.
  - split.
    + intros (p & (j & Hj & He)%elem_of_show_with_pauses).
      destruct He as [?|[_ Hlt]]; [done|]. lia.
    + intros Hlen. eexists. apply elem_of_show_with_pauses.
      exists 0%nat. split; [lia|]. right. split; [done|]. simpl. lia.
Qed.

End Ranges.

(** ** Job A, further *)

Section JobAMore.
Import Pandas PandasFacts TableMoreFacts Console ConsoleFacts.
Import AncBeforeJit AncBeforeJitFacts AncBeforeJitReport Samples.

#[local] Instance value_ge_trans : Transitive value_ge.
Proof.
  intros [x|] [y|] [z|]; unfold value_ge; simpl; try done.
  rewrite !Qle_bool_iff. intros Hxy Hyz. lra.
Qed.

#[local] Instance value_ge_total : Total value_ge.
Proof.
  intros [x|] [y|]; unfold value_ge; simpl; auto.
  rewrite !Qle_bool_iff. destruct (Qlt_le_dec x y) as [Hlt|Hle].
  - right. lra.
  - left. lra.
Qed.

(** Job A's table holds the rows of the file, each once, in ascending
    order of IMO number; the detailed analysis it writes holds the same
    rows from the largest emissions to the smallest, rows without a
    value last. *)
Theorem before_jit_tables_ordered (emissions_df : list vessel_emission) :
  row <$> load_and_analyze_data emissions_df ≡ₚ emissions_df
  /\ StronglySorted (fun a b : analysed => (imo a <= imo b)%Z)
       (load_and_analyze_data emissions_df)
  /\ detailed_output (load_and_analyze_data emissions_df)
     ≡ₚ load_and_analyze_data emissions_df
  /\ StronglySorted
       (fun a b : analysed => value_ge (anc_before_jit a) (anc_before_jit b))
       (detailed_output (load_and_analyze_data emissions_df)).
Proof.
  split; [apply load_and_analyze_data_rows|]. split; [|split].
  - unfold load_and_analyze_data.
    apply (StronglySorted_fmap _ (by_key Z.le imo)); [done|].
    apply sort_values_sorted; apply _.
  - apply sort_values_perm.
  - apply (sort_values_sorted value_ge
             (fun r : analysed => anc_before_jit r)).
Qed.

(** [display_specific_imo_range], given two bounds that are not 0,
    shows one listing: the rows of the table whose IMO number lies
    between the bounds, both included, each as often as the table has
    it and in the order of the table; no other row is shown.  It shows
    nothing at all, not even an empty listing, when a bound is left out
    or is 0. *)
Theorem display_specific_imo_range_rows (emissions_df : list analysed)
    (start_imo end_imo : option Z) :
  (forall s e, start_imo = Some s -> end_imo = Some e ->
     s <> 0%Z -> e <> 0%Z ->
     exists rows,
       display_specific_imo_range emissions_df start_imo end_imo
       = [Show rows]
       /\ rows
          = filter (fun r : analysed => (s <= imo r <= e)%Z) emissions_df
       /\ sublist rows emissions_df
       /\ (forall r : analysed,
             r ∈ rows <-> r ∈ emissions_df /\ (s <= imo r <= e)%Z)
       /\ (forall before (r : analysed) after,
             emissions_df = before ++ r :: after ->
             (s <= imo r <= e)%Z ->
             rows
             = filter (fun r : analysed => (s <= imo r <= e)%Z) before
               ++ r
               :: filter (fun r : analysed => (s <= imo r <= e)%Z) after))
  /\ (start_imo = None \/ start_imo = Some 0%Z
      \/ end_imo = None \/ end_imo = Some 0%Z ->
      display_specific_imo_range emissions_df start_imo end_imo = []).
Proof.
  split.
  - intros s e -> -> Hs He.
    assert (Hrows :
      filter (fun r : analysed => (s <=? imo r)%Z && (imo r <=? e)%Z)
        emissions_df
      = filter (fun r : analysed => (s <= imo r <= e)%Z) emissions_df).
    { apply filter_same. intros r _.
      rewrite andb_True, !Is_true_true, !Z.leb_le. done. }
    eexists. split; [|split; [|split; [|split]]].
    + unfold display_specific_imo_range, truthy.
      apply Z.eqb_neq in Hs, He. rewrite Hs, He. simpl.
      rewrite Hrows. reflexivity.
    + reflexivity.
    + apply sublist_filter.
    + intros r. rewrite list_elem_of_filter. tauto.
    + intros before r after -> Hin.
      rewrite filter_app, filter_cons. by rewrite decide_True.
  - unfold display_specific_imo_range.
    intros [Hb|[Hb|[Hb|Hb]]]; rewrite Hb; simpl; try done;
      by destruct (truthy start_imo).
Qed.

(** On the samples: of the two rows of Job A's table, 9000001 and
    9000002 in this order, the range from 9000002 to 9000005 shows the
    second alone, and a lower bound of 0 shows nothing. *)
Lemma display_specific_imo_range_rows_witness :
  exists rows,
    display_specific_imo_range
      (load_and_analyze_data before_report_sample)
      (Some 9000002%Z) (Some 9000005%Z) = [Show rows]
    /\ (fun r : analysed => imo r) <$> rows = [9000002%Z]
  /\ display_specific_imo_range
       (load_and_analyze_data before_report_sample)
       (Some 0%Z) (Some 9000005%Z) = [].
Proof.
  destruct (display_specific_imo_range_rows
              (load_and_analyze_data before_report_sample)
              (Some 9000002%Z) (Some 9000005%Z)) as [Hshow _].
  destruct (Hshow 9000002%Z 9000005%Z) as (rows & Heq & Hrows & _);
    try done.
  exists rows. split; [exact Heq|].
  destruct (display_specific_imo_range_rows
              (load_and_analyze_data before_report_sample)
              (Some 0%Z) (Some 9000005%Z)) as [_ Hnone].
  split; [|apply Hnone; auto].
  rewrite Hrows. reflexivity.
Defined.

End JobAMore.

(** ** Job C, further *)

Section JobCMore.
Import Pandas PandasFacts TableMoreFacts SumFacts Console ConsoleFacts.
Import AncSavings AncSavingsFacts AncSavingsReport Samples.

(** Job C's table is in ascending order of vessel identifier, compared
    as text. *)
Theorem savings_sorted_by_vessel (before_jit after_jit : list aggregate) :
  StronglySorted string_le (vessel <$> savings_table before_jit after_jit).
Proof.
  unfold savings_table. rewrite <- list_fmap_compose.
  apply (StronglySorted_fmap _
           (by_key string_le (fun p : string * Q * Q * Q => p.1.1.1)));
    [done|].
  apply sort_values_sorted; apply _.
Qed.

(** The three counts of Job C's summary, vessels with positive, with no
    and with negative savings, add up to the number of rows. *)
Theorem savings_counts_add_up (before_jit after_jit : list aggregate) :
  (imos_with_positive_savings (savings_table before_jit after_jit)
   + imos_with_no_savings (savings_table before_jit after_jit)
   + imos_with_negative_savings (savings_table before_jit after_jit))%nat
  = length (savings_table before_jit after_jit).
Proof.
  unfold imos_with_positive_savings, imos_with_no_savings,
    imos_with_negative_savings.
  by rewrite count_where_split, length_fmap.
Qed.

(** The savings column sums what the outer join holds, whatever the
    order of the rows. *)
Lemma total_savings_unfold (before_jit after_jit : list aggregate) :
  total_savings (savings_table before_jit after_jit)
  == sum ((fun p : string * option aggregate * option aggregate =>
             fillna 0 (p.1.2 ≫= value) - fillna 0 (p.2 ≫= value))
            <$> (((fun p => (imo p.1, Some p.1, p.2))
                    <$> merge_left imo imo before_jit after_jit)
                 ++ ((fun r => (imo r, None, Some r))
                       <$> filter (fun r => imo r ∉ imo <$> before_jit)
                             after_jit))).
Proof.
  unfold total_savings, savings_table, merge_outer.
  rewrite <- list_fmap_compose.
  rewrite (sum_fmap_perm _ _ _ (sort_values_perm _ _ _)).
  rewrite <- !list_fmap_compose.
  rewrite (sum_fmap_perm _ _ _ (sort_values_perm _ _ _)).
  reflexivity.
Qed.

(** When neither input table repeats a vessel, the savings of all
    vessels together are the total of the before table less the total
    of the after table, a missing value counting as 0. *)
Theorem total_savings_is_difference_of_totals
    (before_jit after_jit : list aggregate) :
  NoDup (imo <$> before_jit) -> NoDup (imo <$> after_jit) ->
  total_savings (savings_table before_jit after_jit)
  == sum ((fun r => fillna 0 (value r)) <$> before_jit)
     - sum ((fun r => fillna 0 (value r)) <$> after_jit).
Proof.
  intros Hb Ha. rewrite total_savings_unfold.
  rewrite fmap_app, sum_app, <- !list_fmap_compose.
  rewrite merge_left_lookup by done. rewrite <- list_fmap_compose.
  set (v := fun r : aggregate => fillna 0 (value r)).
  transitivity
    ((sum (v <$> before_jit)
      - sum (v <$> filter (fun r => imo r ∈ imo <$> before_jit) after_jit))
     - sum (v <$> filter (fun r => imo r ∉ imo <$> before_jit) after_jit)).
  - apply Qplus_comp.
    + rewrite <- (sum_by_key imo v (imo <$> before_jit) after_jit) by done.
      rewrite <- list_fmap_compose, <- sum_fmap_sub.
      apply sum_fmap_ext. intros l _. simpl.
      destruct (filter_key_at_most_one imo after_jit (imo l) Ha)
        as [->|[r ->]]; simpl; unfold v, sum; simpl; lra.
    + transitivity
        (sum ((fun r => 0 - v r)
                <$> filter (fun r => imo r ∉ imo <$> before_jit) after_jit)).
      * apply sum_fmap_ext. intros r _. simpl. reflexivity.
      * rewrite (sum_fmap_sub (fun _ => 0) v).
        assert (Hz : forall l : list aggregate,
                  sum ((fun _ => 0) <$> l) == 0).
        { induction l as [|x l IH]; [reflexivity|].
          rewrite fmap_cons, sum_cons, IH. lra. }
        rewrite Hz. lra.
  - pose proof (sum_fmap_perm v _ _
               (filter_app_complement
                  (fun r => imo r ∈ imo <$> before_jit) after_jit))
      as Hsplit.
    rewrite fmap_app, sum_app in Hsplit. lra.
Qed.

Lemma total_savings_is_difference_of_totals_witness :
  total_savings (savings_table before_sample after_sample)
  == sum ((fun r => fillna 0 (value r)) <$> before_sample)
     - sum ((fun r => fillna 0 (value r)) <$> after_sample).
Proof.
  apply (total_savings_is_difference_of_totals before_sample after_sample).
  - apply (bool_decide_unpack _). by vm_compute.
  - apply (bool_decide_unpack _). by vm_compute.
Defined.

(** With a vessel listed twice in the before table the identity fails:
    the after row of the vessel is subtracted once for each of them. *)
Example total_savings_repeated_vessel :
  total_savings
    (savings_table repeated_before_sample
       [ {| imo := "A"%string; value := Some 3 |} ]) == -3
  /\ sum ((fun r => fillna 0 (value r)) <$> repeated_before_sample)
     - sum ((fun r => fillna 0 (value r))
              <$> [ {| imo := "A"%string; value := Some 3 |} ]) == 0.
Proof. split; by vm_compute. Qed.

End JobCMore.

(** ** The scripts' guards, further *)

Section ScriptsMore.
Import Script ScriptFacts.

Lemma guarded_entry_calls guard entry target (g : gmap string pyobj) :
  calls (guarded_entry guard entry target g)
  = match load_name g guard with
    | inr v => if decide (v = PyStr "__main__") then [entry] else []
    | inl _ => []
    end.
Proof.
  unfold guarded_entry. destruct (load_name g guard) as [e|v]; [done|].
  by destruct (decide (v = PyStr "__main__")).
Qed.

Lemma guarded_entry_raised guard entry target (g : gmap string pyobj) :
  raised (guarded_entry guard entry target g)
  = match load_name g guard with
    | inr _ => None
    | inl e => Some e
    end.
Proof.
  unfold guarded_entry. destruct (load_name g guard) as [e|v]; [done|].
  by destruct (decide (v = PyStr "__main__")).
Qed.

Lemma load_name_name (g : gmap string pyobj) :
  load_name g "name"
  = match g !! "name"%string with
    | Some v => inr v
    | None => inl (NameError "name")
    end.
Proof.
  unfold load_name. destruct (g !! "name"%string); [done|].
  by rewrite decide_False by apply name_not_builtin.
Qed.

Lemma load_name_dunder (g : gmap string pyobj) :
  load_name g "__name__"
  = match g !! "__name__"%string with
    | Some v => inr v
    | None => inr (PyBuiltin "__name__")
    end.
Proof.
  unfold load_name. destruct (g !! "__name__"%string); [done|].
  rewrite decide_True; [done|].
  apply (bool_decide_unpack _). by vm_compute.
Qed.

(** Whatever namespace the three files are run in, as a script, on
    import or otherwise: Job B's and Job A's files call their entry
    function exactly when the namespace binds the global [name] to
    "__main__", and raise [NameError] exactly when it does not bind
    [name] at all; Job C's file calls its entry function exactly when
    [__name__] is bound to "__main__", and its guard never raises. *)
Theorem entry_called_iff_guard_name_is_main (g : gmap string pyobj) :
  (calls (anc_after_jit_py g) = ["main"%string]
   <-> g !! "name"%string = Some (PyStr "__main__"))
  /\ (raised (anc_after_jit_py g) = Some (NameError "name")
      <-> g !! "name"%string = None)
  /\ (calls (anc_before_jit_py g) = ["load_and_analyze_data"%string]
      <-> g !! "name"%string = Some (PyStr "__main__"))
  /\ (raised (anc_before_jit_py g) = Some (NameError "name")
      <-> g !! "name"%string = None)
  /\ (calls (anc_savings_after_jit_py g)
      = ["calculate_emission_savings"%string]
      <-> g !! "__name__"%string = Some (PyStr "__main__"))
  /\ raised (anc_savings_after_jit_py g) = None.
Proof.
  unfold anc_after_jit_py, anc_before_jit_py, anc_savings_after_jit_py.
  rewrite !guarded_entry_calls, !guarded_entry_raised.
  rewrite !load_name_name, load_name_dunder.
  unfold def, import_as. rewrite !lookup_insert_ne by done.
  destruct (g !! "name"%string) as [v|];
    destruct (g !! "__name__"%string) as [w|];
    repeat case_decide; subst; repeat split; intros; congruence.
Qed.

(** Imported as a module, where [__name__] is the module's name, each
    file binds its functions; Job C's file then calls nothing, and the
    other two stop at the guard after the definitions. *)
Theorem import_binds_functions (g : gmap string pyobj) (module : string) :
  g !! "__name__"%string = Some (PyStr module) ->
  g !! "name"%string = None ->
  module <> "__main__"%string ->
  calls (anc_savings_after_jit_py g) = []
  /\ globals (anc_savings_after_jit_py g) !! "calculate_emission_savings"%string
     = Some (PyFunction "calculate_emission_savings")
  /\ globals (anc_savings_after_jit_py g) !! "savings_result"%string
     = g !! "savings_result"%string
  /\ calls (anc_after_jit_py g) = []
  /\ globals (anc_after_jit_py g) !! "main"%string
     = Some (PyFunction "main")
  /\ calls (anc_before_jit_py g) = []
  /\ globals (anc_before_jit_py g) !! "display_specific_imo_range"%string
     = Some (PyFunction "display_specific_imo_range").
Proof.
  intros Hdunder Hname Hmod.
  unfold anc_after_jit_py, anc_before_jit_py, anc_savings_after_jit_py.
  rewrite !guarded_entry_calls, !load_name_name, load_name_dunder.
  unfold guarded_entry. rewrite !load_name_name, load_name_dunder.
  unfold def, import_as. rewrite !lookup_insert_ne by done.
  rewrite Hdunder, Hname.
  destruct (decide (PyStr module = PyStr "__main__")) as [Heq|_];
    [congruence|].
  simpl.
  repeat split;
    repeat first [ rewrite lookup_insert_eq
                 | rewrite lookup_insert_ne by done ];
    done.
Qed.

Lemma import_binds_functions_witness :
  calls (anc_savings_after_jit_py
           (<["__name__" := PyStr "anc_savings_after_jit"]> ∅)) = []
  /\ globals (anc_after_jit_py
                (<["__name__" := PyStr "anc_savings_after_jit"]> ∅))
       !! "main"%string
     = Some (PyFunction "main").
Proof.
  destruct (import_binds_functions
              (<["__name__" := PyStr "anc_savings_after_jit"]> ∅)
              "anc_savings_after_jit")
    as (Hc & _ & _ & _ & Hm & _); done.
Defined.

End ScriptsMore.
